(** * ghbackup: repository discovery and concurrent synchronisation

    A shallow embedding of [main.go] (package [main]): [getCategory],
    [getRepos], [setMaxPageSize], [updateRepo], [exists], [verbose] and the
    worker pool of [main], together with the exit-status logic of the
    command-line front end that drives [ghbackup.Run].

    Sequential code is a tree of operations on the outside world ([Prog]),
    run by [run]; the worker pool is a transition system ([step_at]) in which
    any worker may make the next move, one operation at a time.

    Go's [string] is a byte sequence; it is modelled by [string].  Go's [int]
    is modelled by [Z] (the values that occur are lengths and HTTP status
    codes, far from the 64-bit bounds). *)

From Stdlib Require Import ZArith Lia Ascii.
From stdpp Require Import base option list list_numbers strings gmap relations.

Local Open Scope Z_scope.

(** ** Package [strings] and string slicing *)

Module GoStrings.

Definition len (s : string) : Z := Z.of_nat (String.length s).

(** [strings.Contains(s, substr)] *)
Fixpoint Contains (s substr : string) : bool :=
  if String.prefix substr s then true
  else match s with
       | EmptyString => false
       | String _ s' => Contains s' substr
       end.

(** The fields of [s] cut at the non-overlapping occurrences of [sep],
    scanning from the left; [skip] counts the bytes of a separator that are
    still to be passed over. *)
Fixpoint fields (sep : string) (skip : nat) (s : string) : list string :=
  match s with
  | EmptyString => [EmptyString]
  | String c s' =>
      match skip with
      | S n => fields sep n s'
      | O =>
          if String.prefix sep s
          then EmptyString :: fields sep (String.length sep - 1) s'
          else match fields sep 0 s' with
               | f :: fs => String c f :: fs
               | [] => [String c EmptyString]
               end
      end
  end.

Fixpoint explode (s : string) : list string :=
  match s with
  | EmptyString => []
  | String c s' => String c EmptyString :: explode s'
  end.

(** [strings.Split(s, sep)].  With an empty separator Go cuts after each
    UTF-8 sequence; the source only splits at "," and ";". *)
Definition Split (s sep : string) : list string :=
  match sep with
  | EmptyString => explode s
  | _ => fields sep 0 s
  end.

(** [strings.Join(elems, sep)] *)
Fixpoint Join (elems : list string) (sep : string) : string :=
  match elems with
  | [] => ""
  | [e] => e
  | e :: es => e +:+ sep +:+ Join es sep
  end.

(** The slice expression [s[lo:hi]]; [None] is the run-time panic
    "slice bounds out of range". *)
Definition slice (s : string) (lo hi : Z) : option string :=
  if bool_decide (0 ≤ lo ∧ lo ≤ hi ∧ hi ≤ len s)
  then Some (String.substring (Z.to_nat lo) (Z.to_nat (hi - lo)) s)
  else None.

End GoStrings.

(** ** Data model *)

(** [type Repo struct { Name string; GitUrl string `json:"git_url"` }] *)
Record Repo := { Name : string; GitUrl : string }.

(** A Go [error] value, identified with its message. *)
Definition error := string.

(** A call returning [(value, err)]. *)
Inductive result (A : Type) :=
| Ok (a : A)
| Err (e : error).
Arguments Ok {A} a.
Arguments Err {A} e.

(** The part of [http.Response] that the program reads. *)
Record Response (B : Type) := {
  StatusCode : Z;
  Header : gmap string (list string);
  RequestURL : string;
  Body : B
}.
Arguments StatusCode {B} r.
Arguments Header {B} r.
Arguments RequestURL {B} r.
Arguments Body {B} r.

(** The part of [url.URL] that [url.Parse] fills for the addresses used. *)
Record URL := {
  Scheme : string;
  Host : string;
  Path : string;
  RawQuery : string;
  Fragment : string
}.

(** The outcome of [os.Stat], seen through [err] and [os.IsNotExist(err)]. *)
Inductive StatResult :=
| StatInfo
| ErrNotExist (e : error)
| ErrOther (e : error).

(** [exec.Cmd]: the argument vector and the working directory. *)
Record Cmd := { Args : list string; Dir : string }.

(** [exec.Command(name, arg...)] *)
Definition exec_Command (name : string) (arg : list string) : Cmd :=
  {| Args := name :: arg; Dir := "" |}.

Definition set_Dir (c : Cmd) (d : string) : Cmd :=
  {| Args := Args c; Dir := d |}.

(** Operands handed to [fmt] and [log]. *)
Inductive Val :=
| VStr (s : string)
| VInt (n : Z).

(** What the process writes. *)
Inductive Line :=
| Stderr (operands : list Val)     (* fmt.Fprintln(os.Stderr, ...) *)
| Log (operands : list Val)        (* log.Println(...) *)
| Usage.                           (* flag.Usage() *)

(** [var maxWorkers = 10] *)
Definition maxWorkers : Z := 10.

(** [var githubApi = "https://api.github.com"] *)
Definition githubApi : string := "https://api.github.com".

Definition quote : string := String (Ascii.ascii_of_nat 34) EmptyString.

(** The literal against which [getRepos] tests the first link: [rel=] followed
    by [next] between double quotes. *)
Definition rel_next : string := "rel=" +:+ quote +:+ "next" +:+ quote.

(** ** The world outside the process

    The network, the file system, the [git] subprocess and the library
    packages [encoding/json], [net/url] and [path] are not part of the
    repository; the program is verified against any behaviour of theirs. *)
Class Env := {
  World : Type;
  BodyT : Type;
  (** [http.Get(u)] *)
  http_Get : string → World → result (Response BodyT) * World;
  (** [json.NewDecoder(body).Decode(&account)]: the field [account.Type]
      after the call, and the error returned. *)
  decode_account : BodyT → string * option error;
  (** [json.NewDecoder(body).Decode(&repos)]: the slice [repos] after the
      call, and the error returned. *)
  decode_repos : BodyT → list Repo * option error;
  (** [os.Stat(path)] *)
  os_Stat : string → World → StatResult;
  (** [cmd.Run()] *)
  cmd_Run : Cmd → World → option error * World;
  (** [path.Join(elem...)] *)
  path_Join : list string → string;
  (** [url.Parse(rawUrl)] *)
  url_Parse : string → result URL;
  (** [url.ParseQuery(query)], the map it returns; [u.Query()] drops the
      error. *)
  url_ParseQuery : string → gmap string (list string);
  (** [v.Encode()] *)
  Values_Encode : gmap string (list string) → string;
  (** [u.String()] *)
  URL_String : URL → string
}.

(** [u.Query()] *)
Definition URL_Query `{Env} (u : URL) : gmap string (list string) :=
  url_ParseQuery (RawQuery u).

(** [v.Set(key, value)] *)
Definition Values_Set (v : gmap string (list string)) (key value : string)
  : gmap string (list string) :=
  <[key := [value]]> v.

Definition set_RawQuery (u : URL) (q : string) : URL :=
  {| Scheme := Scheme u; Host := Host u; Path := Path u;
     RawQuery := q; Fragment := Fragment u |}.

(** ** Programs

    A goroutine is a tree of the operations it performs on the outside world.
    The leaves are the ways in which it stops. *)
Section Prog.
Context `{Env}.

Inductive Prog (A : Type) : Type :=
| Ret (a : A)                                   (* return *)
| Panic (v : list Val)                          (* panic(v) *)
| Exit (code : Z)                               (* os.Exit(code) *)
| Diverge                                       (* the recursion budget of the model is spent *)
| Get (u : string) (k : result (Response BodyT) → Prog A)
| Stat (p : string) (k : StatResult → Prog A)
| Run (c : Cmd) (k : option error → Prog A)
| Out (l : Line) (k : Prog A).

Global Arguments Ret {A} a.
Global Arguments Panic {A} v.
Global Arguments Exit {A} code.
Global Arguments Diverge {A}.
Global Arguments Get {A} u k.
Global Arguments Stat {A} p k.
Global Arguments Run {A} c k.
Global Arguments Out {A} l k.

Fixpoint bind {A B} (f : A → Prog B) (p : Prog A) : Prog B :=
  match p with
  | Ret a => f a
  | Panic v => Panic v
  | Exit c => Exit c
  | Diverge => Diverge
  | Get u k => Get u (λ r, bind f (k r))
  | Stat q k => Stat q (λ r, bind f (k r))
  | Run c k => Run c (λ r, bind f (k r))
  | Out l k => Out l (bind f k)
  end.

Global Instance Prog_ret : MRet Prog := @Ret.
Global Instance Prog_bind : MBind Prog := @bind.

(** *** The state of a run: the world, and everything done to it so far *)

Inductive Event :=
| EvGet (u : string)
| EvStat (p : string) (r : StatResult)
| EvRun (c : Cmd) (err : option error)
| EvOut (l : Line).

Record State := { world : World; trace : list Event }.

Definition record (s : State) (w : World) (e : Event) : State :=
  {| world := w; trace := trace s ++ [e] |}.

(** The next operation of a goroutine, if it has one. *)
Definition perform {A} (p : Prog A) (s : State) : option (Prog A * State) :=
  match p with
  | Get u k =>
      let '(r, w) := http_Get u (world s) in
      Some (k r, record s w (EvGet u))
  | Stat q k =>
      let r := os_Stat q (world s) in
      Some (k r, record s (world s) (EvStat q r))
  | Run c k =>
      let '(err, w) := cmd_Run c (world s) in
      Some (k err, record s w (EvRun c err))
  | Out l k => Some (k, record s (world s) (EvOut l))
  | Ret _ | Panic _ | Exit _ | Diverge => None
  end.

(** How a goroutine that runs alone ends. *)
Inductive Outcome (A : Type) :=
| Returned (a : A)
| Panicked (v : list Val)
| Exited (code : Z)
| Diverged.
Global Arguments Returned {A} a.
Global Arguments Panicked {A} v.
Global Arguments Exited {A} code.
Global Arguments Diverged {A}.

Fixpoint run {A} (p : Prog A) (s : State) : Outcome A * State :=
  match p with
  | Ret a => (Returned a, s)
  | Panic v => (Panicked v, s)
  | Exit c => (Exited c, s)
  | Diverge => (Diverged, s)
  | Get u k =>
      let '(r, w) := http_Get u (world s) in
      run (k r) (record s w (EvGet u))
  | Stat q k =>
      let r := os_Stat q (world s) in
      run (k r) (record s (world s) (EvStat q r))
  | Run c k =>
      let '(err, w) := cmd_Run c (world s) in
      run (k err) (record s w (EvRun c err))
  | Out l k => run k (record s (world s) (EvOut l))
  end.

(** The exit status of the process: 0 when [main] returns, 2 when a
    goroutine panics, the argument of [os.Exit] otherwise. *)
Definition exit_status {A} (o : Outcome A) : option Z :=
  match o with
  | Returned _ => Some 0
  | Panicked _ => Some 2
  | Exited c => Some c
  | Diverged => None
  end.

(** *** The functions of [main.go] *)

(** [var verboseFlag = flag.Bool("verbose", false, ...)], after
    [flag.Parse]. *)
Variable verboseFlag : bool.

(** [func verbose(info ...interface{})] *)
Definition verbose (info : list Val) : Prog unit :=
  if verboseFlag then Out (Log info) (Ret ()) else Ret ().

(** [func parseArgs() (string, string)]; [args] is [flag.Args()]. *)
Definition parseArgs (args : list string) : Prog (string * string) :=
  match args with
  | [a0; a1] => Ret (a0, a1)
  | _ => Out Usage (Exit 1)
  end.

Definition bad_status (u : string) (code : Z) : list Val :=
  [VStr "Request to "; VStr u; VStr " with bad status code "; VInt code].

(** [func getCategory(name string) string] *)
Definition getCategory (name : string) : Prog string :=
  Get (GoStrings.Join [githubApi; "users"; name] "/") (λ res,
    match res with
    | Err err => Panic [VStr err]
    | Ok r =>
        if bool_decide (StatusCode r >= 300)
        then Panic (bad_status (RequestURL r) (StatusCode r))
        else
          let account_Type := fst (decode_account (Body r)) in
          if String.eqb account_Type "User" then Ret "users"
          else if String.eqb account_Type "Organization" then Ret "orgs"
          else Panic [VStr "Unknown type of account "; VStr account_Type;
                      VStr " for name "; VStr name]
    end).

Definition index_out_of_range : list Val := [VStr "index out of range"].
Definition slice_out_of_range : list Val := [VStr "slice bounds out of range"].

(** Lines 126-133 of [getRepos]: the address of the next page, if the
    response announces one. *)
Definition nextPage (r : Response BodyT) : Prog (option string) :=
  let linkHeader := default [] (Header r !! "Link") in
  match linkHeader with
  | [] => Ret None
  | link0 :: _ =>
      match GoStrings.Split link0 "," with
      | [] => Panic index_out_of_range
      | firstLink :: _ =>
          if GoStrings.Contains firstLink rel_next then
            match GoStrings.Split firstLink ";" with
            | [] => Panic index_out_of_range
            | urlInBrackets :: _ =>
                match GoStrings.slice urlInBrackets 1
                        (GoStrings.len urlInBrackets - 1) with
                | Some u => Ret (Some u)
                | None => Panic slice_out_of_range
                end
            end
          else Ret None
      end
  end.

(** [func getRepos(u string) []Repo]; [fuel] bounds the depth of the
    recursion. *)
Fixpoint getRepos (fuel : nat) (u : string) : Prog (list Repo) :=
  match fuel with
  | O => Diverge
  | S fuel =>
      Get u (λ res,
        match res with
        | Err err => Panic [VStr err]
        | Ok r =>
            if bool_decide (StatusCode r >= 300)
            then Panic (bad_status u (StatusCode r))
            else
              let repos := fst (decode_repos (Body r)) in
              next ← nextPage r;
              match next with
              | Some u' => more ← getRepos fuel u'; Ret (repos ++ more)
              | None => Ret repos
              end
        end)
  end.

(** [func setMaxPageSize(rawUrl string) string] *)
Definition setMaxPageSize (rawUrl : string) : Prog string :=
  match url_Parse rawUrl with
  | Err err => Panic [VStr err]
  | Ok u =>
      let q := URL_Query u in
      let q := Values_Set q "per_page" "100" in
      let u := set_RawQuery u (Values_Encode q) in
      Ret (URL_String u)
  end.

(** [func exists(path string) bool] *)
Definition exists_ (path : string) : Prog bool :=
  Stat path (λ r,
    match r with
    | StatInfo => Ret true
    | ErrNotExist _ => Ret false
    | ErrOther err => Panic [VStr err]
    end).

(** [func updateRepo(backupDir string, repo Repo)].  The deferred call runs
    when the function returns. *)
Definition updateRepo (backupDir : string) (repo : Repo) : Prog unit :=
  let repoDir := path_Join [backupDir; Name repo] in
  found ← exists_ repoDir;
  let '(deferred, cmd) :=
    if found : bool then
      (verbose [VStr "Updated repository:"; VStr (Name repo)],
       set_Dir (exec_Command "git" ["pull"]) repoDir)
    else
      (verbose [VStr "Cloned  repository:"; VStr (Name repo)],
       exec_Command "git" ["clone"; GitUrl repo; repoDir]) in
  Run cmd (λ err,
    match err with
    | Some e => Out (Stderr [VStr e]) (Ret ())
    | None => Ret ()
    end ;;
    deferred).

(** [main], up to the start of the workers: the backup directory and the
    repositories found. *)
Definition discover (fuel : nat) (args : list string)
  : Prog (string * list Repo) :=
  '(name, backupDir) ← parseArgs args;
  category ← getCategory name;
  u ← setMaxPageSize (GoStrings.Join [githubApi; category; name; "repos"] "/");
  repos ← getRepos fuel u;
  kind ← match GoStrings.slice category 0 (GoStrings.len category - 1) with
         | Some k => Ret k
         | None => Panic slice_out_of_range
         end;
  verbose [VStr "Backup for"; VStr kind; VStr name; VStr "with";
           VInt (Z.of_nat (length repos)); VStr "repositories"] ;;
  Ret (backupDir, repos).

End Prog.

(** ** The worker pool of [main] (lines 44-67) *)
Section Pool.
Context `{Env}.
Variable verboseFlag : bool.

(** A worker goroutine [for repo := range jobs { updateRepo(backupDir, repo) }]:
    blocked on the channel, inside [updateRepo], or returned (its deferred
    [wg.Done()] has run). *)
Inductive Thread :=
| Idle
| Busy (p : Prog unit)
| Gone.

(** [jobs] holds the repositories that [main] has not yet handed over: the
    channel is unbuffered, so [jobs <- repo] completes together with the
    receive of a worker.  When it is empty [main] has closed the channel and
    waits in [wg.Wait()]. *)
Record Pool := {
  backupDir : string;
  jobs : list Repo;
  threads : list Thread;
  st : State
}.

Inductive Sys :=
| Running (p : Pool)
| Stopped (o : Outcome unit) (s : State).

(** Lines 47-51 *)
Definition workerCount (maxWorkers : Z) (repos : list Repo) : Z :=
  let workers := maxWorkers in
  if bool_decide (Z.of_nat (length repos) < maxWorkers)
  then Z.of_nat (length repos)
  else workers.

(** Lines 53-61: [for w := 0; w < workers; w++ { wg.Add(1); go func() {...}() }] *)
Definition startWorkers (workers : Z) : list Thread :=
  foldl (λ started _, started ++ [Idle]) [] (seqZ 0 workers).

Definition spawn (dir : string) (repos : list Repo) (s : State) : Pool :=
  {| backupDir := dir; jobs := repos;
     threads := startWorkers (workerCount maxWorkers repos); st := s |}.

Definition set_thread (p : Pool) (i : nat) (t : Thread) : Pool :=
  {| backupDir := backupDir p; jobs := jobs p;
     threads := <[i := t]> (threads p); st := st p |}.

Definition set_jobs (p : Pool) (js : list Repo) : Pool :=
  {| backupDir := backupDir p; jobs := js; threads := threads p; st := st p |}.

Definition set_st (p : Pool) (s : State) : Pool :=
  {| backupDir := backupDir p; jobs := jobs p; threads := threads p; st := s |}.

Definition is_Gone (t : Thread) : bool :=
  match t with Gone => true | _ => false end.

(** Who moves next: worker [i], or [main] leaving [wg.Wait()]. *)
Inductive Choice :=
| Worker (i : nat)
| Main.

Definition step_at (c : Choice) (p : Pool) : option Sys :=
  match c with
  | Main =>
      match jobs p with
      | [] => if forallb is_Gone (threads p)
              then Some (Stopped (Returned ()) (st p)) else None
      | _ :: _ => None
      end
  | Worker i =>
      match threads p !! i with
      | Some Idle =>
          match jobs p with
          | repo :: rest =>
              Some (Running (set_thread (set_jobs p rest) i
                               (Busy (updateRepo verboseFlag (backupDir p) repo))))
          | [] => Some (Running (set_thread p i Gone))
          end
      | Some (Busy q) =>
          match q with
          | Ret _ => Some (Running (set_thread p i Idle))
          | Panic v => Some (Stopped (Panicked v) (st p))
          | Exit code => Some (Stopped (Exited code) (st p))
          | Diverge => None
          | _ =>
              match perform q (st p) with
              | Some (q', s') => Some (Running (set_thread (set_st p s') i (Busy q')))
              | None => None
              end
          end
      | Some Gone | None => None
      end
  end.

Definition step (a b : Sys) : Prop :=
  ∃ p c, a = Running p ∧ step_at c p = Some b.

(** Follow a schedule; a choice that cannot move is passed over. *)
Fixpoint exec (sched : list Choice) (a : Sys) : Sys :=
  match sched with
  | [] => a
  | c :: sched' =>
      match a with
      | Running p =>
          match step_at c p with
          | Some b => exec sched' b
          | None => exec sched' a
          end
      | Stopped _ _ => a
      end
  end.

(** The whole of [main]: discovery, then the pool. *)
Definition boot (fuel : nat) (args : list string) (s : State) : Sys :=
  match run (discover verboseFlag fuel args) s with
  | (Returned (dir, repos), s') => Running (spawn dir repos s')
  | (Panicked v, s') => Stopped (Panicked v) s'
  | (Exited code, s') => Stopped (Exited code) s'
  | (Diverged, s') => Stopped Diverged s'
  end.

Definition main (fuel : nat) (args : list string) (sched : list Choice)
    (s : State) : Sys :=
  exec sched (boot fuel args s).

Definition status (a : Sys) : option Z :=
  match a with
  | Running _ => None
  | Stopped o _ => exit_status o
  end.

Definition final_state (a : Sys) : State :=
  match a with
  | Running p => st p
  | Stopped _ s => s
  end.

End Pool.

(** ** Reading a trace *)
Section Trace.
Context `{Env}.

(** The addresses requested, in order. *)
Definition requests (t : list Event) : list string :=
  omap (λ e, match e with EvGet u => Some u | _ => None end) t.

(** The subprocesses that failed. *)
Definition failures (t : list Event) : list (Cmd * error) :=
  omap (λ e, match e with EvRun c (Some err) => Some (c, err) | _ => None end) t.

(** The subprocesses run. *)
Definition commands (t : list Event) : list Cmd :=
  omap (λ e, match e with EvRun c _ => Some c | _ => None end) t.

(** The errors printed by [fmt.Fprintln(os.Stderr, err)]. *)
Definition reported (t : list Event) : list error :=
  omap (λ e, match e with EvOut (Stderr [VStr err]) => Some err | _ => None end) t.

(** The lines written by [log.Println]. *)
Definition logged (t : list Event) : list (list Val) :=
  omap (λ e, match e with EvOut (Log info) => Some info | _ => None end) t.

End Trace.

(** ** Link headers

    One entry of a [Link] header value as the service writes it: the address
    between angle brackets, then the relation. *)
Definition link_entry (rel u : string) : string :=
  "<" +:+ u +:+ ">; rel=" +:+ quote +:+ rel +:+ quote.

Definition link_next (u : string) : string := link_entry "next" u.

(** The byte [c] occurs in [s]. *)
Fixpoint occurs (c : ascii) (s : string) : bool :=
  match s with
  | EmptyString => false
  | String a s' => Ascii.eqb a c || occurs c s'
  end.

(** Following the specification's words: among the comma-separated entries,
    the one whose [rel] is [next], and the text strictly between its [<] and
    its [>]. *)
Module LinkSpec.

Fixpoint before (c : Ascii.ascii) (s : string) : option string :=
  match s with
  | EmptyString => None
  | String a s' =>
      if Ascii.eqb a c then Some EmptyString
      else String a <$> before c s'
  end.

Fixpoint after (c : Ascii.ascii) (s : string) : option string :=
  match s with
  | EmptyString => None
  | String a s' => if Ascii.eqb a c then Some s' else after c s'
  end.

Definition between (s : string) : option string :=
  after "<"%char s ≫= before ">"%char.

Definition next (value : string) : option string :=
  match filter (λ e, Is_true (GoStrings.Contains e rel_next))
               (GoStrings.Split value ",") with
  | e :: _ => between e
  | [] => None
  end.

End LinkSpec.

(** ** Vocabulary of the statements *)
Section Vocabulary.
Context `{Env}.

(** The address that [getCategory] asks for. *)
Definition users_url (name : string) : string :=
  GoStrings.Join [githubApi; "users"; name] "/".

(** The pages that [getRepos] walks through from [u]: each is fetched with a
    status below 300, each but the last announces its successor. *)
Inductive pages : string → State → list (Response BodyT) → State → Prop :=
| pages_last u s r w :
    http_Get u (world s) = (Ok r, w) →
    StatusCode r < 300 →
    nextPage r = Ret None →
    pages u s [r] (record s w (EvGet u))
| pages_next u s r w u' rs s' :
    http_Get u (world s) = (Ok r, w) →
    StatusCode r < 300 →
    nextPage r = Ret (Some u') →
    pages u' (record s w (EvGet u)) rs s' →
    pages u s (r :: rs) s'.

Definition page_repos (r : Response BodyT) : list Repo :=
  (decode_repos (Body r)).1.

End Vocabulary.

(** ** Where a worker stands inside [updateRepo] *)
Section Phases.
Context `{Env}.
Variable verboseFlag : bool.
Variable dir : string.

(** The error a worker has received from [cmd.Run()] and is about to print. *)
Definition unreported (t : Thread) : list error :=
  match t with
  | Busy (Out (Stderr [VStr e]) _) => [e]
  | _ => []
  end.

(** The rest of [updateRepo] once the command is chosen. *)
Definition afterRun (info : list Val) (err : option error) : Prog unit :=
  match err with
  | Some e => Out (Stderr [VStr e]) (Ret ())
  | None => Ret ()
  end ;;
  verbose verboseFlag info.

(** The positions of a worker; [evs] is what the pool has done so far. *)
Inductive phase (evs : list Event) : Thread → Prop :=
| phase_idle : phase evs Idle
| phase_gone : phase evs Gone
| phase_start repo : phase evs (Busy (updateRepo verboseFlag dir repo))
| phase_doomed q err :
    EvStat q (ErrOther err) ∈ evs → phase evs (Busy (Panic [VStr err]))
| phase_run cmd info : phase evs (Busy (Run cmd (afterRun info)))
| phase_report e info :
    phase evs (Busy (Out (Stderr [VStr e]) (verbose verboseFlag info)))
| phase_deferred info : phase evs (Busy (verbose verboseFlag info))
| phase_done : phase evs (Busy (Ret ())).

(** What holds of the pool while it runs, [t0] being the trace at its start:
    every worker is somewhere in its loop, no worker has left while [main]
    still has repositories to hand over, and every failure of a subprocess is
    printed or about to be. *)
Definition pool_inv (t0 : list Event) (p : Pool) : Prop :=
  backupDir p = dir ∧
  ∃ evs,
    trace (st p) = t0 ++ evs ∧
    Forall (phase evs) (threads p) ∧
    (jobs p ≠ [] → threads p ≠ [] ∧ Forall (λ t, t ≠ Gone) (threads p)) ∧
    (failures evs).*2 ≡ₚ reported evs ++ (threads p ≫= unreported).

Definition sys_inv (t0 : list Event) (a : Sys) : Prop :=
  match a with
  | Running p => pool_inv t0 p
  | Stopped (Returned _) s =>
      ∃ evs, trace s = t0 ++ evs ∧ (failures evs).*2 ≡ₚ reported evs
  | Stopped (Panicked v) s =>
      ∃ evs q err,
        trace s = t0 ++ evs ∧ v = [VStr err] ∧ EvStat q (ErrOther err) ∈ evs
  | Stopped _ _ => False
  end.

(** A bound on the moves a worker has left before it is back on the channel,
    and on the moves the pool has left. *)
Definition weight (t : Thread) : nat :=
  match t with
  | Gone => 0
  | Idle => 1
  | Busy (Stat _ _) => 6
  | Busy (Run _ _) => 5
  | Busy (Out (Log _) _) => 3
  | Busy (Out _ _) => 4
  | Busy _ => 2
  end.

Definition budget (a : Sys) : nat :=
  match a with
  | Running p => 1 + 7 * length (jobs p) + sum_list (weight <$> threads p)
  | Stopped _ _ => 0
  end.

End Phases.

(** A [Link] value in which the entry with [rel] equal to [next] comes
    second. *)
Definition prev_then_next : string :=
  link_entry "prev" "https://api.github.com/user/1/repos?page=1" +:+ ", " +:+
  link_next "https://api.github.com/user/1/repos?page=3".

(** ** The command-line front end

    The second [main] hands the work to [ghbackup.Run] and logs the updates
    that arrive on the channel.  [ghbackup] is a package of its own: what
    [Run] sends and returns is a parameter here.  The goroutine that logs is
    not waited for; the lines listed are those written when it keeps up. *)
Module Frontend.

Inductive UpdateType := UErr | UInfo.

Record Update := { Type_ : UpdateType; Message : string }.

Record Config := { Account : string; Dir : string; Secret : string }.

Inductive Written :=
| ErrLog (msg : string)        (* errLogger.Println *)
| VerboseLog (msg : string)    (* verboseLogger.Println *)
| UsageText.                   (* flag.Usage() *)

Section Main.
Variable Run : Config → list Update * option error.

(** The body of [for u := range updates]. *)
Definition consume (verboseFlag : bool) (u : Update) : list Written :=
  match Type_ u with
  | UErr => [ErrLog (Message u)]
  | UInfo => if verboseFlag then [VerboseLog (Message u)] else []
  end.

(** [main]: what is written, and the exit status. *)
Definition main (secret : string) (verboseFlag : bool) (args : list string)
  : list Written * Z :=
  match args with
  | [a0; a1] =>
      let '(updates, err) :=
        Run {| Account := a0; Dir := a1; Secret := secret |} in
      let written := updates ≫= consume verboseFlag in
      match err with
      | Some e => (written ++ [ErrLog e], 1)
      | None => (written, 0)
      end
  | _ => ([UsageText], 1)
  end.

End Main.

End Frontend.

(** ** A small world to run the model in

    Pages are served from a table, the file system is a list of paths, and
    [git] fails for the listed addresses and directories.  The library
    functions are simple stand-ins: [path.Join] without cleaning, URLs cut at
    the first question mark, queries without escaping. *)
Module Sim.

(** A response body, as each of the two decoders reads it. *)
Record page := {
  as_account : string * option error;
  as_repos : list Repo * option error
}.

Record toy := {
  served : list (string * result (Response page));
  present : list string;
  denied : list string;
  failing : list string
}.

Definition mem (x : string) (l : list string) : bool :=
  bool_decide (x ∈ l).

Fixpoint lookup_assoc {A} (u : string) (l : list (string * A)) : option A :=
  match l with
  | [] => None
  | (k, a) :: l' => if String.eqb k u then Some a else lookup_assoc u l'
  end.

Definition get (u : string) (w : toy) : result (Response page) * toy :=
  (default (Err "no such host") (lookup_assoc u (served w)), w).

Definition stat (p : string) (w : toy) : StatResult :=
  if mem p (denied w) then ErrOther "permission denied"
  else if mem p (present w) then StatInfo
  else ErrNotExist "no such file or directory".

Definition create (p : string) (w : toy) : toy :=
  {| served := served w; present := p :: present w;
     denied := denied w; failing := failing w |}.

Definition git (c : Cmd) (w : toy) : option error * toy :=
  match Args c with
  | [_; _; url; dir] =>
      if mem url (failing w) then (Some "exit status 128", w)
      else (None, create dir w)
  | _ =>
      if mem (Dir c) (failing w) then (Some "exit status 1", w)
      else (None, w)
  end.

Definition nonempty (s : string) : bool :=
  negb (String.eqb s "").

Definition join (elem : list string) : string :=
  GoStrings.Join (filter (λ e, Is_true (nonempty e)) elem) "/".

Definition parse (raw : string) : result URL :=
  if GoStrings.Contains raw " " then Err "invalid character in URL"
  else match GoStrings.Split raw "?" with
       | [] => Err "empty url"
       | p :: q =>
           Ok {| Scheme := ""; Host := ""; Path := p;
                 RawQuery := GoStrings.Join q "?"; Fragment := "" |}
       end.

Definition parse_query (q : string) : gmap string (list string) :=
  foldl (λ m field,
           match GoStrings.Split field "=" with
           | [] => m
           | k :: v => <[k := default [] (m !! k) ++ [GoStrings.Join v "="]]> m
           end)
        ∅ (filter (λ e, Is_true (nonempty e)) (GoStrings.Split q "&")).

Definition encode (m : gmap string (list string)) : string :=
  GoStrings.Join
    (mbind (λ kv : string * list string,
              (λ v, fst kv +:+ "=" +:+ v) <$> snd kv)
           (map_to_list m))
    "&".

Definition render (u : URL) : string :=
  if String.eqb (RawQuery u) "" then Path u
  else Path u +:+ "?" +:+ RawQuery u.

Definition env : Env := {|
  World := toy;
  BodyT := page;
  http_Get := get;
  decode_account := as_account;
  decode_repos := as_repos;
  os_Stat := stat;
  cmd_Run := git;
  path_Join := join;
  url_Parse := parse;
  url_ParseQuery := parse_query;
  Values_Encode := encode;
  URL_String := render
|}.

Definition start (w : toy) : @State env := @Build_State env w [].

Definition ok (link : list string) (b : page) : result (Response page) :=
  Ok {| StatusCode := 200;
        Header := match link with [] => ∅ | _ => {["Link" := link]} end;
        RequestURL := ""; Body := b |}.

Definition account (type : string) : page :=
  {| as_account := (type, None); as_repos := ([], Some "cannot unmarshal object") |}.

Definition listing (repos : list Repo) : page :=
  {| as_account := ("", Some "cannot unmarshal array"); as_repos := (repos, None) |}.

Definition repo (name : string) : Repo :=
  {| Name := name; GitUrl := "git://github.com/octo/" +:+ name +:+ ".git" |}.

Definition page1 : string := "https://api.github.com/users/octo/repos?per_page=100".
Definition page2 : string := "https://api.github.com/user/1/repos?per_page=100&page=2".

(** An account with three repositories on two pages; [beta] is already
    cloned, and cloning [gamma] fails. *)
Definition octo : toy := {|
  served :=
    [("https://api.github.com/users/octo", ok [] (account "User"));
     (page1, ok [link_next page2 +:+ ", " +:+ link_entry "last" page2]
                (listing [repo "alpha"; repo "beta"]));
     (page2, ok [link_entry "first" page1 +:+ ", " +:+ link_entry "prev" page1]
                (listing [repo "gamma"]))];
  present := ["/backup/beta"];
  denied := [];
  failing := [GitUrl (repo "gamma")]
|}.

(** The same account when the listing breaks off inside the second
    repository. *)
Definition truncated : toy := {|
  served :=
    [("https://api.github.com/users/octo", ok [] (account "User"));
     (page1, ok [] {| as_account := ("", Some "cannot unmarshal array");
                      as_repos := ([repo "alpha"], Some "unexpected EOF") |})];
  present := [];
  denied := [];
  failing := []
|}.

(** A backup directory in which [alpha] cannot be looked up and pulling
    [beta] fails. *)
Definition locked : toy := {|
  served := served octo;
  present := ["/backup/beta"];
  denied := ["/backup/alpha"];
  failing := ["/backup/beta"]
|}.

(** The account of three repositories when the first page lists its [next]
    entry after the [last] entry. *)
Definition reordered : toy := {|
  served :=
    [("https://api.github.com/users/octo", ok [] (account "User"));
     (page1, ok [link_entry "last" page2 +:+ ", " +:+ link_next page2]
                (listing [repo "alpha"; repo "beta"]));
     (page2, ok [] (listing [repo "gamma"]))];
  present := [];
  denied := [];
  failing := []
|}.

(** Three workers taking turns, then [main]. *)
Definition round_robin : list Choice :=
  mjoin (replicate 8 [Worker 0; Worker 1; Worker 2]) ++ [Main].

(** The whole of [main] on the account of three repositories; the state when
    the workers start, and the state at the end. *)
Definition octo_run : @Sys env :=
  @main env true 3 ["octo"; "/backup"] round_robin (start octo).

Definition octo_start : @State env :=
  Eval vm_compute in
    @final_state env (@boot env true 3 ["octo"; "/backup"] (start octo)).

Definition octo_final : @State env :=
  Eval vm_compute in @final_state env octo_run.

End Sim.


(** ** More vocabulary: discovery *)
Section DiscoveryVocabulary.
Context `{Env}.

(** A program that only talks to the network and writes lines: it never looks
    at the file system and never starts a subprocess. *)
Inductive network_only {A : Type} : Prog A → Prop :=
| network_ret a : network_only (Ret a)
| network_panic v : network_only (Panic v)
| network_exit code : network_only (Exit code)
| network_diverge : network_only Diverge
| network_get u k : (∀ r, network_only (k r)) → network_only (Get u k)
| network_out l k : network_only k → network_only (Out l k).

Definition network_event (e : Event) : Prop :=
  match e with
  | EvGet _ | EvOut _ => True
  | EvStat _ _ | EvRun _ _ => False
  end.

(** The address of the first page for an account of the given category. *)
Definition repos_url (category name : string) : string :=
  GoStrings.Join [githubApi; category; name; "repos"] "/".

(** The line that [main] logs before the workers start. *)
Definition summary (category name : string) (repos : list Repo) : Line :=
  Log [VStr "Backup for";
       VStr (if String.eqb category "users" then "user" else "org");
       VStr name; VStr "with"; VInt (Z.of_nat (length repos));
       VStr "repositories"].

(** [getRepos] has fetched the pages [rs] from [u] on, each with a status
    below 300, and the last of them sends it on to [u']. *)
Inductive walk : string → State → list (Response BodyT) → string → State → Prop :=
| walk_here u s : walk u s [] u s
| walk_on u s r w u1 rs u' s' :
    http_Get u (world s) = (Ok r, w) →
    StatusCode r < 300 →
    nextPage r = Ret (Some u1) →
    walk u1 (record s w (EvGet u)) rs u' s' →
    walk u s (r :: rs) u' s'.

(** Everything written, in order. *)
Definition written (t : list Event) : list Line :=
  omap (λ e, match e with EvOut l => Some l | _ => None end) t.

End DiscoveryVocabulary.


(** ** More vocabulary: who gets which repository *)
Section LedgerVocabulary.
Context `{Env}.
Variable dir : string.
Variable repos : list Repo.

(** The local path of a repository. *)
Definition path_of (repo : Repo) : string := path_Join [dir; Name repo].

(** The paths looked up, in order, and those whose lookup failed with an
    error other than "does not exist". *)
Definition stats (t : list Event) : list string :=
  omap (λ e, match e with EvStat q _ => Some q | _ => None end) t.

Definition refused (t : list Event) : list string :=
  omap (λ e, match e with EvStat q (ErrOther _) => Some q | _ => None end) t.

(** The directory a [git] command of [updateRepo] works on: the destination
    of a clone, the working directory of a pull. *)
Definition target (c : Cmd) : string :=
  match Args c with
  | [_; _; _; destination] => destination
  | _ => Dir c
  end.

(** The path a worker still has to look up, the path it still has to run
    [git] on, and whether its lookup has made it panic. *)
Definition unstarted (t : Thread) : list string :=
  match t with
  | Busy (Stat q _) => [q]
  | _ => []
  end.

Definition pending (t : Thread) : list string :=
  match t with
  | Busy (Stat q _) => [q]
  | Busy (Run c _) => [target c]
  | _ => []
  end.

Definition lost (t : Thread) : list unit :=
  match t with
  | Busy (Panic _) => [()]
  | _ => []
  end.

(** Every lookup in the trace is an answer of [os.Stat]. *)
Definition honest (e : Event) : Prop :=
  match e with
  | EvStat q r => ∃ w, os_Stat q w = r
  | _ => True
  end.

(** The books of the pool: each repository is with [main], with a worker, or
    in the trace, and nowhere twice. *)
Definition ledger (evs : list Event) (p : Pool) : Prop :=
  stats evs ++ (threads p ≫= unstarted) ++ (path_of <$> jobs p)
    ≡ₚ path_of <$> repos ∧
  (target <$> commands evs) ++ refused evs ++ (threads p ≫= pending) ++
    (path_of <$> jobs p) ≡ₚ path_of <$> repos ∧
  length (refused evs) = length (threads p ≫= lost) ∧
  Forall honest evs.

Definition sys_ledger (t0 : list Event) (a : Sys) : Prop :=
  ∃ evs,
    trace (final_state a) = t0 ++ evs ∧
    match a with
    | Running p => ledger evs p
    | Stopped (Returned _) _ =>
        stats evs ≡ₚ path_of <$> repos ∧
        target <$> commands evs ≡ₚ path_of <$> repos ∧
        Forall honest evs
    | Stopped _ _ =>
        stats evs ⊆+ path_of <$> repos ∧
        target <$> commands evs ⊆+ path_of <$> repos ∧
        Forall honest evs
    end.

End LedgerVocabulary.


(** ** More small worlds *)
Module Cases.

Definition lookup_octo : string * result (Response Sim.page) :=
  ("https://api.github.com/users/octo", Sim.ok [] (Sim.account "User")).

Definition answer (code : Z) (link : list string) (b : Sim.page)
  : result (Response Sim.page) :=
  Ok {| StatusCode := code;
        Header := match link with [] => ∅ | _ => {["Link" := link]} end;
        RequestURL := ""; Body := b |}.

Definition empty_disk (served : list (string * result (Response Sim.page)))
  : Sim.toy :=
  {| Sim.served := served; Sim.present := []; Sim.denied := [];
     Sim.failing := [] |}.

(** An account that cannot be found. *)
Definition ghost : Sim.toy :=
  empty_disk [("https://api.github.com/users/ghost",
               answer 404 [] (Sim.account ""))].

(** An account whose name holds a space. *)
Definition spaced : Sim.toy :=
  empty_disk [("https://api.github.com/users/oc to",
               Sim.ok [] (Sim.account "User"))].

(** The second page answers with a server error. *)
Definition broken_chain : Sim.toy :=
  empty_disk [lookup_octo;
              (Sim.page1, Sim.ok [link_next Sim.page2]
                            (Sim.listing [Sim.repo "alpha"]));
              (Sim.page2, answer 500 [] (Sim.listing []))].

(** The first page names itself as the next one. *)
Definition looping : Sim.toy :=
  empty_disk [lookup_octo;
              (Sim.page1, Sim.ok [link_next Sim.page1]
                            (Sim.listing [Sim.repo "alpha"]))].

(** A [next] entry without an address. *)
Definition bare_link : string := "" +:+ String ";" (" " +:+ rel_next).

Definition bare : Sim.toy :=
  empty_disk [lookup_octo;
              (Sim.page1, Sim.ok [bare_link] (Sim.listing [Sim.repo "alpha"]))].

(** The small world with a file system that never refuses a lookup. *)
Definition calm_stat (p : string) (w : Sim.toy) : StatResult :=
  if Sim.mem p (Sim.present w) then StatInfo
  else ErrNotExist "no such file or directory".

Definition calm : Env := {|
  World := Sim.toy;
  BodyT := Sim.page;
  http_Get := Sim.get;
  decode_account := Sim.as_account;
  decode_repos := Sim.as_repos;
  os_Stat := calm_stat;
  cmd_Run := Sim.git;
  path_Join := Sim.join;
  url_Parse := Sim.parse;
  url_ParseQuery := Sim.parse_query;
  Values_Encode := Sim.encode;
  URL_String := Sim.render
|}.

(** The three repositories of the account [octo]. *)
Definition octo_repos : list Repo :=
  [Sim.repo "alpha"; Sim.repo "beta"; Sim.repo "gamma"].

(** An error update between two informational ones. *)
Definition updates : list Frontend.Update :=
  [{| Frontend.Type_ := Frontend.UInfo; Frontend.Message := "3 repositories" |};
   {| Frontend.Type_ := Frontend.UErr; Frontend.Message := "exit status 128" |};
   {| Frontend.Type_ := Frontend.UInfo; Frontend.Message := "done" |}].

End Cases.

(** * Properties *)

(** ** Running a program *)
Section RunFacts.
Context `{Env}.

Lemma run_bind {A B} (p : Prog A) (f : A → Prog B) (s : State) :
  run (p ≫= f) s =
  match run p s with
  | (Returned a, s') => run (f a) s'
  | (Panicked v, s') => (Panicked v, s')
  | (Exited code, s') => (Exited code, s')
  | (Diverged, s') => (Diverged, s')
  end.
Proof.
  revert s. induction p as [a|v|code| |u k IH|q k IH|c k IH|l k IH];
    intros s; cbn; try reflexivity.
  - destruct (http_Get u (world s)) as [r w]. apply IH.
  - apply IH.
  - destruct (cmd_Run c (world s)) as [err w]. apply IH.
  - apply IH.
Qed.

(** A run only adds to the trace. *)
Lemma run_trace {A} (p : Prog A) (s : State) :
  ∃ evs, trace (run p s).2 = trace s ++ evs.
Proof.
  revert s. induction p as [a|v|code| |u k IH|q k IH|c k IH|l k IH];
    intros s; cbn; try (exists []; by rewrite app_nil_r).
  - destruct (http_Get u (world s)) as [r w].
    destruct (IH r (record s w (EvGet u))) as [evs ->].
    exists (EvGet u :: evs). cbn. by rewrite <- app_assoc.
  - destruct (IH (os_Stat q (world s))
                (record s (world s) (EvStat q (os_Stat q (world s))))) as [evs ->].
    eexists (_ :: evs). cbn. by rewrite <- app_assoc.
  - destruct (cmd_Run c (world s)) as [err w].
    destruct (IH err (record s w (EvRun c err))) as [evs ->].
    eexists (_ :: evs). cbn. by rewrite <- app_assoc.
  - destruct (IH (record s (world s) (EvOut l))) as [evs ->].
    eexists (_ :: evs). cbn. by rewrite <- app_assoc.
Qed.

Lemma exec_Stopped v (sched : list Choice) o s :
  exec v sched (Stopped o s) = Stopped o s.
Proof. by destruct sched. Qed.

End RunFacts.

(** ** Strings and link headers *)
Section LinkFacts.
Context `{Env}.

Lemma append_cons (a : ascii) (s t : string) :
  String a s +:+ t = String a (s +:+ t).
Proof. reflexivity. Qed.

Lemma append_nil_r (s : string) : s +:+ "" = s.
Proof. induction s as [|a s IH]; [done|]. rewrite append_cons. by f_equal. Qed.

Lemma append_assoc (a b c : string) : (a +:+ b) +:+ c = a +:+ b +:+ c.
Proof. induction a as [|x a IH]; [done|]. rewrite !append_cons. by f_equal. Qed.

Lemma length_append (a b : string) :
  String.length (a +:+ b) = (String.length a + String.length b)%nat.
Proof.
  induction a as [|x a IH]; [done|]. rewrite append_cons.
  cbn [String.length Nat.add]. by f_equal.
Qed.

Lemma occurs_append (c : ascii) (a b : string) :
  occurs c (a +:+ b) = occurs c a || occurs c b.
Proof.
  induction a as [|x a IH]; [done|]. rewrite append_cons. cbn [occurs].
  rewrite IH. by rewrite orb_assoc.
Qed.

Lemma prefix_empty (s : string) : String.prefix "" s = true.
Proof. by destruct s. Qed.

Lemma prefix_refl (s : string) : String.prefix s s = true.
Proof.
  induction s as [|a s IH]; [done|]. cbn. by destruct (ascii_dec a a).
Qed.

Lemma prefix_single (c a : ascii) (s : string) :
  String.prefix (String c "") (String a s) = Ascii.eqb a c.
Proof.
  cbn. destruct (ascii_dec c a) as [->|Hne].
  - by rewrite prefix_empty, Ascii.eqb_refl.
  - symmetry. apply Ascii.eqb_neq. congruence.
Qed.

(** A string without the separator is one field. *)
Lemma fields_whole (c : ascii) (s : string) :
  occurs c s = false → GoStrings.fields (String c "") 0 s = [s].
Proof.
  induction s as [|a s IH]; [done|]. cbn [occurs GoStrings.fields].
  intros [Ha Hs]%orb_false_elim. rewrite prefix_single, Ha, IH; done.
Qed.

(** The first separator ends the first field. *)
Lemma fields_cut (c : ascii) (s rest : string) :
  occurs c s = false →
  GoStrings.fields (String c "") 0 (s +:+ String c rest) =
  s :: GoStrings.fields (String c "") 0 rest.
Proof.
  induction s as [|a s IH].
  - intros _. change ("" +:+ String c rest) with (String c rest).
    cbn [GoStrings.fields]. by rewrite prefix_single, Ascii.eqb_refl.
  - rewrite append_cons. cbn [occurs GoStrings.fields].
    intros [Ha Hs]%orb_false_elim. rewrite prefix_single, Ha, IH; done.
Qed.

Lemma Contains_suffix (a b : string) : GoStrings.Contains (a +:+ b) b = true.
Proof.
  induction a as [|x a IH].
  - change ("" +:+ b) with b. destruct b as [|y b]; [done|].
    cbn [GoStrings.Contains]. by rewrite prefix_refl.
  - rewrite append_cons. cbn [GoStrings.Contains]. rewrite IH.
    by destruct (String.prefix _ _).
Qed.

Lemma substring_append (u v : string) :
  String.substring 0 (String.length u) (u +:+ v) = u.
Proof.
  induction u as [|a u IH]; [by destruct v|]. rewrite append_cons.
  cbn [String.length String.substring]. by f_equal.
Qed.

(** The angle brackets come off. *)
Lemma slice_brackets (u : string) :
  GoStrings.slice ("<" +:+ u +:+ ">") 1 (GoStrings.len ("<" +:+ u +:+ ">") - 1)
  = Some u.
Proof.
  change ("<" +:+ u +:+ ">") with (String "<" (u +:+ ">")).
  unfold GoStrings.slice, GoStrings.len.
  cbn [String.length]. rewrite length_append. cbn [String.length].
  rewrite bool_decide_eq_true_2 by lia. f_equal.
  replace (Z.to_nat (Z.of_nat (S (String.length u + 1)) - 1 - 1))
    with (String.length u) by lia.
  change (Z.to_nat 1) with 1%nat. cbn [String.substring].
  apply substring_append.
Qed.

(** X20.  When the first entry of the [Link] value is the [next] entry,
    written as the service writes it, [getRepos] finds the address between its angle
    brackets. *)
Lemma nextPage_follows_first_entry (r : Response BodyT) (u tail : string)
    (more : list string) :
  occurs "," u = false →
  occurs ";" u = false →
  tail = "" ∨ (∃ t, tail = String "," t) →
  Header r !! "Link" = Some ((link_next u +:+ tail) :: more) →
  nextPage r = Ret (Some u).
Proof.
  intros Hcomma Hsemi Htail Hlink. unfold nextPage. rewrite Hlink.
  cbn [from_option id].
  assert (Hfirst : ∃ fs, GoStrings.Split (link_next u +:+ tail) "," =
                         link_next u :: fs).
  { assert (Hfree : occurs "," (link_next u) = false).
    { unfold link_next, link_entry. rewrite !occurs_append, Hcomma. reflexivity. }
    destruct Htail as [->|[t ->]].
    - exists []. rewrite append_nil_r. by apply (fields_whole ","%char).
    - eexists. by apply (fields_cut ","%char). }
  destruct Hfirst as [fs ->].
  assert (Hnext : link_next u = ("<" +:+ u +:+ ">; ") +:+ rel_next).
  { unfold link_next, link_entry, rel_next. rewrite !append_assoc. reflexivity. }
  rewrite Hnext at 1. rewrite Contains_suffix.
  assert (Hurl : ∃ fs', GoStrings.Split (link_next u) ";" =
                        ("<" +:+ u +:+ ">") :: fs').
  { replace (link_next u) with
      (("<" +:+ u +:+ ">") +:+ String ";" (" " +:+ rel_next)).
    - eexists. apply (fields_cut ";"%char).
      rewrite !occurs_append, Hsemi. reflexivity.
    - unfold link_next, link_entry, rel_next. rewrite !append_assoc.
      reflexivity. }
  destruct Hurl as [fs' ->]. by rewrite slice_brackets.
Qed.

End LinkFacts.

(** ** Discovery: [getCategory], [getRepos], [setMaxPageSize] *)
Section Discovery.
Context `{Env}.

(** C7.  When the lookup answers with a status below 300, [getCategory]
    returns "users" for the type "User" and "orgs" for "Organization"; for
    any other type it panics, and [main] stops there with exit status 2,
    having made no further request. *)
Theorem getCategory_classifies (name : string) (s : State)
    (r : Response BodyT) (w : World) :
  http_Get (users_url name) (world s) = (Ok r, w) →
  StatusCode r < 300 →
  let account_Type := (decode_account (Body r)).1 in
  let s' := record s w (EvGet (users_url name)) in
  (account_Type = "User" →
     run (getCategory name) s = (Returned "users", s')) ∧
  (account_Type = "Organization" →
     run (getCategory name) s = (Returned "orgs", s')) ∧
  (account_Type ≠ "User" → account_Type ≠ "Organization" →
     ∃ v, run (getCategory name) s = (Panicked v, s') ∧
          ∀ verboseFlag fuel dir sched,
            main verboseFlag fuel [name; dir] sched s = Stopped (Panicked v) s' ∧
            status (Stopped (Panicked v) s') = Some 2).
Proof.
  intros Hget Hcode account_Type s'.
  assert (Hrun : run (getCategory name) s =
                 run (if String.eqb account_Type "User" then Ret "users"
                      else if String.eqb account_Type "Organization" then Ret "orgs"
                      else Panic [VStr "Unknown type of account "; VStr account_Type;
                                  VStr " for name "; VStr name]) s').
  { unfold getCategory. cbn [run]. fold (users_url name). rewrite Hget.
    rewrite bool_decide_eq_false_2 by lia. reflexivity. }
  split; [|split].
  - intros Ht. rewrite Hrun, Ht. reflexivity.
  - intros Ht. rewrite Hrun, Ht. reflexivity.
  - intros HnU HnO. apply String.eqb_neq in HnU, HnO.
    rewrite HnU, HnO in Hrun. eexists. split; [exact Hrun|].
    intros verboseFlag fuel dir sched. split; [|reflexivity].
    unfold main, boot, discover. cbn [parseArgs mbind].
    change (Prog_bind ?A ?B ?f (Ret ?a)) with (f a). cbn beta iota.
    rewrite run_bind, Hrun. cbn [run]. apply exec_Stopped.
Qed.

(** C2.  [getRepos] looks at the first entry of the [Link] value only: with
    the [next] entry in second place it finds no next page, although the
    entry is there and names page 3. *)
Theorem nextPage_misses_later_entry (code : Z) (u : string) (b : BodyT) :
  nextPage {| StatusCode := code; Header := {["Link" := [prev_then_next]]};
              RequestURL := u; Body := b |} = Ret None ∧
  LinkSpec.next prev_then_next =
    Some "https://api.github.com/user/1/repos?page=3".
Proof.
  split; [|reflexivity].
  unfold nextPage. cbn [Header]. rewrite lookup_singleton_eq. reflexivity.
Qed.

(** X21.  A [Link] value whose first entry is not the [next] entry announces no
    next page to [getRepos], whatever the later entries are. *)
Lemma nextPage_ignores_later_entries (r : Response BodyT)
    (first rest : string) (more : list string) :
  occurs "," first = false →
  GoStrings.Contains first rel_next = false →
  Header r !! "Link" = Some ((first +:+ String "," rest) :: more) →
  nextPage r = Ret None.
Proof.
  intros Hcomma Hrel Hlink. unfold nextPage. rewrite Hlink.
  cbn [from_option id].
  change (GoStrings.Split ?s ",") with (GoStrings.fields "," 0 s).
  rewrite (fields_cut ","%char) by done. by rewrite Hrel.
Qed.

(** A failed request and a status of 300 or more do stop [getRepos]. *)
Lemma getRepos_transport_failure (fuel : nat) (u : string) (s : State)
    (err : error) (w : World) :
  http_Get u (world s) = (Err err, w) →
  run (getRepos (S fuel) u) s = (Panicked [VStr err], record s w (EvGet u)).
Proof. intros Hget. cbn [getRepos run]. by rewrite Hget. Qed.

Lemma getRepos_bad_status (fuel : nat) (u : string) (s : State)
    (r : Response BodyT) (w : World) :
  http_Get u (world s) = (Ok r, w) →
  StatusCode r >= 300 →
  run (getRepos (S fuel) u) s =
  (Panicked (bad_status u (StatusCode r)), record s w (EvGet u)).
Proof.
  intros Hget Hcode. cbn [getRepos run]. rewrite Hget.
  by rewrite bool_decide_eq_true_2.
Qed.

(** C3.  The error of [Decode] is dropped: a page with a good status whose
    body fails to decode does not stop [getRepos], which returns whatever
    the decoder left in [repos]. *)
Theorem getRepos_keeps_going_after_decode_failure (fuel : nat) (u : string)
    (s : State) (r : Response BodyT) (w : World) (repos : list Repo)
    (err : error) :
  http_Get u (world s) = (Ok r, w) →
  StatusCode r < 300 →
  Header r !! "Link" = None →
  decode_repos (Body r) = (repos, Some err) →
  run (getRepos (S fuel) u) s = (Returned repos, record s w (EvGet u)).
Proof.
  intros Hget Hcode Hlink Hdec. cbn [getRepos run]. rewrite Hget.
  rewrite bool_decide_eq_false_2 by lia.
  rewrite run_bind. unfold nextPage. rewrite Hlink, Hdec. reflexivity.
Qed.

Lemma getRepos_pages (u : string) (s s' : State) (rs : list (Response BodyT)) :
  pages u s rs s' →
  ∀ fuel, (length rs ≤ fuel)%nat →
  run (getRepos fuel u) s = (Returned (concat (page_repos <$> rs)), s').
Proof.
  induction 1 as [u s r w Hget Hcode Hnext|u s r w u' rs s' Hget Hcode Hnext Hp IH];
    intros [|fuel] Hfuel; cbn [length] in Hfuel; try lia;
    cbn [getRepos run]; rewrite Hget; rewrite bool_decide_eq_false_2 by lia;
    rewrite run_bind, Hnext; cbn [run].
  - cbn. by rewrite app_nil_r.
  - rewrite run_bind, IH by lia. reflexivity.
Qed.

(** C4.  When the service answers with pages [rs], [getRepos] returns their
    repositories concatenated in the order fetched, as many as the pages
    hold together; a single empty page gives the empty result. *)
Theorem getRepos_concatenates_pages (u : string) (s s' : State)
    (rs : list (Response BodyT)) (fuel : nat) :
  pages u s rs s' →
  (length rs ≤ fuel)%nat →
  ∃ repos,
    run (getRepos fuel u) s = (Returned repos, s') ∧
    repos = concat (page_repos <$> rs) ∧
    length repos = sum_list (length ∘ page_repos <$> rs) ∧
    (∀ r, rs = [r] → page_repos r = [] → repos = []).
Proof.
  intros Hp Hfuel. exists (concat (page_repos <$> rs)).
  split; [by apply getRepos_pages|]. split; [done|]. split.
  - clear. induction rs as [|r rs IH]; [done|].
    cbn. rewrite length_app, IH. done.
  - intros r -> Hr. cbn. by rewrite Hr.
Qed.

End Discovery.

(** ** One repository: [exists] and [updateRepo] *)
Section OneRepository.
Context `{Env}.

Lemma exists_run (path : string) (s : State) :
  run (exists_ path) s =
  (match os_Stat path (world s) with
   | StatInfo => Returned true
   | ErrNotExist _ => Returned false
   | ErrOther err => Panicked [VStr err]
   end,
   record s (world s) (EvStat path (os_Stat path (world s)))).
Proof. cbn. by destruct (os_Stat path (world s)). Qed.

(** What [updateRepo] does once the path has been looked up. *)
Lemma updateRepo_run (v : bool) (backupDir : string) (repo : Repo) (s : State) :
  let repoDir := path_Join [backupDir; Name repo] in
  let r := os_Stat repoDir (world s) in
  let found := match r with StatInfo => true | _ => false end in
  let cmd := if found then {| Args := ["git"; "pull"]; Dir := repoDir |}
             else {| Args := ["git"; "clone"; GitUrl repo; repoDir]; Dir := "" |} in
  let info := [VStr (if found then "Updated repository:" else "Cloned  repository:");
               VStr (Name repo)] in
  run (updateRepo v backupDir repo) s =
  match r with
  | ErrOther err => (Panicked [VStr err], record s (world s) (EvStat repoDir r))
  | _ =>
      let '(err, w) := cmd_Run cmd (world s) in
      (Returned (),
       {| world := w;
          trace := trace s ++
            [EvStat repoDir r; EvRun cmd err] ++
            match err with Some e => [EvOut (Stderr [VStr e])] | None => [] end ++
            if v then [EvOut (Log info)] else [] |})
  end.
Proof.
  intros repoDir r found cmd info. unfold updateRepo. fold repoDir.
  rewrite run_bind, exists_run. fold r. subst found cmd info.
  destruct r as [|e|e]; [| |reflexivity]; cbn [run record world trace];
    unfold exec_Command, set_Dir; cbn [Args Dir];
    match goal with |- context [cmd_Run ?c ?x] => destruct (cmd_Run c x) as [[err|] w] end;
    destruct v; cbn; unfold record; cbn [world trace];
    rewrite <- ?app_assoc; reflexivity.
Qed.

(** C6.  [updateRepo] looks up the root joined with the repository's name;
    when the path is there it runs [git pull] with that path as working
    directory, when it is not it runs [git clone] of the repository's address
    into that path, and it runs nothing else. *)
Theorem updateRepo_path_and_command (v : bool) (backupDir : string)
    (repo : Repo) (s : State) :
  let repoDir := path_Join [backupDir; Name repo] in
  let s' := (run (updateRepo v backupDir repo) s).2 in
  ∃ rest,
    trace s' = trace s ++ EvStat repoDir (os_Stat repoDir (world s)) :: rest ∧
    match os_Stat repoDir (world s) with
    | StatInfo =>
        commands rest = [{| Args := ["git"; "pull"]; Dir := repoDir |}]
    | ErrNotExist _ =>
        commands rest =
          [{| Args := ["git"; "clone"; GitUrl repo; repoDir]; Dir := "" |}]
    | ErrOther _ => rest = []
    end.
Proof.
  intros repoDir s'. subst s'. rewrite updateRepo_run. fold repoDir.
  destruct (os_Stat repoDir (world s)) as [|e|e]; cbn zeta iota.
  - destruct (cmd_Run _ _) as [[err|] w]; destruct v; cbn; eexists; split; done.
  - destruct (cmd_Run _ _) as [[err|] w]; destruct v; cbn; eexists; split; done.
  - exists []. done.
Qed.

(** C10.  In verbose mode the deferred message is written also when the
    subprocess fails: after the error line comes "Updated repository:" or
    "Cloned  repository:" with the name, and [updateRepo] returns. *)
Theorem updateRepo_logs_after_failure (backupDir : string) (repo : Repo)
    (s : State) (err : error) (w : World) :
  let repoDir := path_Join [backupDir; Name repo] in
  let pull := {| Args := ["git"; "pull"]; Dir := repoDir |} in
  let clone := {| Args := ["git"; "clone"; GitUrl repo; repoDir]; Dir := "" |} in
  (os_Stat repoDir (world s) = StatInfo →
   cmd_Run pull (world s) = (Some err, w) →
   run (updateRepo true backupDir repo) s =
   (Returned (),
    {| world := w;
       trace := trace s ++
         [EvStat repoDir StatInfo; EvRun pull (Some err);
          EvOut (Stderr [VStr err]);
          EvOut (Log [VStr "Updated repository:"; VStr (Name repo)])] |})) ∧
  (∀ e, os_Stat repoDir (world s) = ErrNotExist e →
   cmd_Run clone (world s) = (Some err, w) →
   run (updateRepo true backupDir repo) s =
   (Returned (),
    {| world := w;
       trace := trace s ++
         [EvStat repoDir (ErrNotExist e); EvRun clone (Some err);
          EvOut (Stderr [VStr err]);
          EvOut (Log [VStr "Cloned  repository:"; VStr (Name repo)])] |})).
Proof.
  intros repoDir pull clone. split.
  - intros Hstat Hrun. rewrite updateRepo_run. fold repoDir. rewrite Hstat.
    cbn zeta iota. fold pull. rewrite Hrun. reflexivity.
  - intros e Hstat Hrun. rewrite updateRepo_run. fold repoDir. rewrite Hstat.
    cbn zeta iota. fold clone. rewrite Hrun. reflexivity.
Qed.

End OneRepository.

(** ** The worker pool *)
Section PoolFacts.
Context `{Env}.
Variable verboseFlag : bool.

Lemma startWorkers_replicate (workers : Z) :
  startWorkers workers = replicate (Z.to_nat workers) Idle.
Proof.
  unfold startWorkers.
  assert (Hfold : ∀ (l : list Z) (acc : list Thread),
             foldl (λ started _, started ++ [Idle]) acc l =
             acc ++ replicate (length l) Idle).
  { induction l as [|z l IH]; intros acc; cbn.
    - by rewrite app_nil_r.
    - rewrite IH, <- app_assoc. done. }
  rewrite Hfold, length_seqZ. done.
Qed.

Lemma workerCount_min (limit : Z) (repos : list Repo) :
  workerCount limit repos = Z.min limit (Z.of_nat (length repos)).
Proof. unfold workerCount. case_bool_decide; lia. Qed.

Lemma no_step_after_stop (o : Outcome unit) (s : State) (b : Sys) :
  ¬ step verboseFlag (Stopped o s) b.
Proof. intros (p & c & Hp & _). discriminate. Qed.

(** C5.  [main] starts min(limit, N) workers for N repositories, ten at most
    as the program stands; with no repository it starts none, no worker ever
    moves, and [main] returns at once with exit status 0. *)
Theorem workers_started (limit : Z) (dir : string) (repos : list Repo)
    (s : State) :
  length (startWorkers (workerCount limit repos)) =
    Z.to_nat (Z.min limit (Z.of_nat (length repos))) ∧
  length (threads (spawn dir repos s)) = Nat.min 10 (length repos) ∧
  threads (spawn dir [] s) = [] ∧
  (∀ i, step_at verboseFlag (Worker i) (spawn dir [] s) = None) ∧
  step_at verboseFlag Main (spawn dir [] s) = Some (Stopped (Returned ()) s) ∧
  status (Stopped (Returned ()) s) = Some 0.
Proof.
  split; [|split; [|split; [|split; [|split]]]]; try reflexivity.
  - rewrite startWorkers_replicate, length_replicate, workerCount_min. done.
  - cbn [spawn threads].
    rewrite startWorkers_replicate, length_replicate, workerCount_min.
    unfold maxWorkers. lia.
Qed.

(** C8.  A worker that has just taken a repository looks up its path.  An
    error other than "does not exist" makes [exists] panic, which stops the
    whole process with exit status 2: no goroutine moves any more.  "Does not
    exist" makes [exists] return false, and the worker goes on to clone. *)
Theorem exists_error_stops_the_run (p : Pool) (i : nat) (repo : Repo) :
  threads p !! i = Some (Busy (updateRepo verboseFlag (backupDir p) repo)) →
  let repoDir := path_Join [backupDir p; Name repo] in
  let r := os_Stat repoDir (world (st p)) in
  let s1 := record (st p) (world (st p)) (EvStat repoDir r) in
  (∀ err, r = ErrOther err →
     run (exists_ repoDir) (st p) = (Panicked [VStr err], s1) ∧
     exec verboseFlag [Worker i; Worker i] (Running p) =
       Stopped (Panicked [VStr err]) s1 ∧
     status (Stopped (Panicked [VStr err]) s1) = Some 2 ∧
     ∀ b, ¬ step verboseFlag (Stopped (Panicked [VStr err]) s1) b) ∧
  (∀ e, r = ErrNotExist e →
     run (exists_ repoDir) (st p) = (Returned false, s1) ∧
     ∃ p' err,
       exec verboseFlag [Worker i; Worker i] (Running p) = Running p' ∧
       trace (st p') = trace s1 ++
         [EvRun {| Args := ["git"; "clone"; GitUrl repo; repoDir]; Dir := "" |} err]).
Proof.
  intros Hi repoDir r s1.
  assert (Hlen : (i < length (threads p))%nat) by (by eapply lookup_lt_Some).
  split.
  - intros err Hr. split; [|split; [|split]].
    + rewrite exists_run. fold repoDir r. subst s1. by rewrite Hr.
    + cbn [exec step_at]. rewrite Hi. unfold updateRepo. cbn.
      fold repoDir r. rewrite Hr. cbn.
      rewrite list_lookup_insert_eq by done. cbn. subst s1. by rewrite Hr.
    + reflexivity.
    + apply no_step_after_stop.
  - intros e Hr. split.
    + rewrite exists_run. fold repoDir r. subst s1. by rewrite Hr.
    + cbn [exec step_at]. rewrite Hi. unfold updateRepo. cbn.
      fold repoDir r. rewrite Hr. cbn.
      rewrite list_lookup_insert_eq by done. cbn.
      destruct (cmd_Run _ _) as [err w] eqn:Hcmd.
      eexists _, err. split; [reflexivity|]. subst s1. rewrite ?Hr. reflexivity.
Qed.

End PoolFacts.

(** ** The first page *)
Section FirstPage.
Context `{Env}.

Lemma run_bind_trace {A B} (p : Prog A) (f : A → Prog B) (s : State) :
  ∃ evs, trace (run (p ≫= f) s).2 = trace (run p s).2 ++ evs.
Proof.
  rewrite run_bind. destruct (run p s) as [[a|v|code|] s']; cbn;
    [apply run_trace|exists []; by rewrite app_nil_r..].
Qed.

Lemma final_state_boot (v : bool) (fuel : nat) (args : list string) (s : State) :
  final_state (boot v fuel args s) = (run (discover v fuel args) s).2.
Proof.
  unfold boot. by destruct (run (discover v fuel args) s) as [[[dir repos]|?|?|] s'].
Qed.

Lemma requests_app (t1 t2 : list Event) :
  requests (t1 ++ t2) = requests t1 ++ requests t2.
Proof. apply omap_app. Qed.

(** C9.  [setMaxPageSize] sets the query parameter [per_page] to 100 and
    leaves the other parameters alone; [main] applies it to the address of
    the first page, so the first request after the account lookup carries
    [per_page=100]. *)
Theorem first_page_asks_for_100 (v : bool) (fuel : nat)
    (name dir category : string) (s s1 : State) (u : URL) :
  let rawUrl := GoStrings.Join [githubApi; category; name; "repos"] "/" in
  let q := Values_Set (URL_Query u) "per_page" "100" in
  let first := URL_String (set_RawQuery u (Values_Encode q)) in
  run (getCategory name) s = (Returned category, s1) →
  url_Parse rawUrl = Ok u →
  setMaxPageSize rawUrl = Ret first ∧
  q !! "per_page" = Some ["100"] ∧
  (∀ k, k ≠ "per_page" → q !! k = URL_Query u !! k) ∧
  ∃ rest,
    requests (trace (final_state (boot v (S fuel) [name; dir] s))) =
    requests (trace s1) ++ first :: rest.
Proof.
  intros rawUrl q first Hcat Hparse.
  assert (Hset : setMaxPageSize rawUrl = Ret first).
  { unfold setMaxPageSize. by rewrite Hparse. }
  split; [exact Hset|]. split; [apply lookup_insert_eq|].
  split; [intros k Hk; by apply lookup_insert_ne|].
  rewrite final_state_boot. unfold discover. cbn [parseArgs mbind].
  change (Prog_bind ?A ?B ?f (Ret ?a)) with (f a). cbn beta iota.
  rewrite run_bind, Hcat. fold rawUrl. rewrite Hset.
  change (Ret first ≫= ?f) with (f first). cbn beta.
  match goal with |- context [run (?p ≫= ?f) s1] =>
    destruct (run_bind_trace p f s1) as [evs ->] end.
  cbn [getRepos run].
  destruct (http_Get first (world s1)) as [r w].
  match goal with |- context [run ?p (record s1 w (EvGet first))] =>
    destruct (run_trace p (record s1 w (EvGet first))) as [evs' ->] end.
  cbn [record trace]. rewrite !requests_app. cbn.
  rewrite <- !app_assoc. eexists. reflexivity.
Qed.

End FirstPage.

(** ** The pool as a whole *)
Section PoolInvariant.
Context `{Env}.
Implicit Types (v : bool) (dir : string).

Lemma phase_mono v dir (evs evs' : list Event) (t : Thread) :
  phase v dir evs t → phase v dir (evs ++ evs') t.
Proof.
  destruct 1; try by constructor.
  eapply phase_doomed. apply elem_of_app. by left.
Qed.

Lemma unreported_insert (ths : list Thread) (i : nat) (t : Thread) :
  ths !! i = Some t →
  ∃ rest,
    ths ≫= unreported ≡ₚ unreported t ++ rest ∧
    ∀ t', <[i := t']> ths ≫= unreported ≡ₚ unreported t' ++ rest.
Proof.
  intros Hi.
  exists ((take i ths ≫= unreported) ++ (drop (S i) ths ≫= unreported)).
  split.
  - rewrite <- (take_drop_middle ths i t Hi) at 1.
    rewrite bind_app, bind_cons. apply Permutation_app_swap_app.
  - intros t'. rewrite insert_take_drop by (by eapply lookup_lt_Some).
    rewrite bind_app, bind_cons. apply Permutation_app_swap_app.
Qed.

Lemma all_Gone_unreported (ths : list Thread) :
  forallb is_Gone ths = true → ths ≫= unreported = [].
Proof.
  induction ths as [|t ths IH]; [done|]. cbn. intros [Ht Hths]%andb_prop.
  destruct t; try done. by apply IH.
Qed.

Lemma unreported_verbose v (info : list Val) :
  unreported (Busy (verbose v info)) = [].
Proof. unfold verbose. by destruct v. Qed.

Lemma failures_snoc (evs : list Event) (e : Event) :
  failures (evs ++ [e]) =
  failures evs ++ match e with EvRun c (Some err) => [(c, err)] | _ => [] end.
Proof.
  unfold failures. rewrite omap_app. f_equal.
  destruct e as [| |c [err|]|]; done.
Qed.

Lemma reported_snoc (evs : list Event) (e : Event) :
  reported (evs ++ [e]) =
  reported evs ++ match e with EvOut (Stderr [VStr err]) => [err] | _ => [] end.
Proof.
  unfold reported. rewrite omap_app. f_equal.
  destruct e as [| | |[[|[s|n] [|? ?]]| |]]; done.
Qed.

Lemma step_at_perform v (p : Pool) (i : nat) (q q' : Prog unit) (s' : State) :
  threads p !! i = Some (Busy q) →
  perform q (st p) = Some (q', s') →
  step_at v (Worker i) p =
    Some (Running (set_thread (set_st p s') i (Busy q'))).
Proof.
  intros Hi Hq. cbn [step_at]. rewrite Hi.
  destruct q; try discriminate; by rewrite Hq.
Qed.

Lemma perform_updateRepo v dir (repo : Repo) (s : State) :
  let repoDir := path_Join [dir; Name repo] in
  perform (updateRepo v dir repo) s =
  Some (match os_Stat repoDir (world s) with
        | StatInfo =>
            Run {| Args := ["git"; "pull"]; Dir := repoDir |}
                (afterRun v [VStr "Updated repository:"; VStr (Name repo)])
        | ErrNotExist _ =>
            Run {| Args := ["git"; "clone"; GitUrl repo; repoDir]; Dir := "" |}
                (afterRun v [VStr "Cloned  repository:"; VStr (Name repo)])
        | ErrOther err => Panic [VStr err]
        end,
        record s (world s) (EvStat repoDir (os_Stat repoDir (world s)))).
Proof.
  intros repoDir. unfold updateRepo. fold repoDir. cbn.
  by destruct (os_Stat repoDir (world s)).
Qed.

(** Replacing a worker that has not left by one that has not left keeps the
    pool non-empty and free of workers that left. *)
Ltac workers_stay Hjobs :=
  let Hj := fresh "Hj" in
  let Hne := fresh "Hne" in
  let Hng := fresh "Hng" in
  let Hnil := fresh "Hnil" in
  intros Hj; destruct Hjobs as [Hne Hng]; [done|]; split;
  [ intros Hnil; apply (f_equal length) in Hnil;
    rewrite length_insert in Hnil;
    apply Hne; by apply nil_length_inv
  | apply Forall_insert; [done|] ].

Lemma step_inv v dir (t0 : list Event) (p : Pool) (c : Choice) (b : Sys) :
  pool_inv v dir t0 p →
  step_at v c p = Some b →
  sys_inv v dir t0 b.
Proof.
  intros (Hdir & evs & Htr & Hph & Hjobs & Hperm) Hstep.
  destruct c as [i|].
  - destruct (threads p !! i) as [t|] eqn:Hi;
      [|by cbn [step_at] in Hstep; rewrite Hi in Hstep].
    destruct (unreported_insert _ _ _ Hi) as (rest & Hold & Hnew).
    pose proof (Forall_lookup_1 _ _ _ _ Hph Hi) as Hpi.
    destruct Hpi as [| |repo|q err Hin|cmd info|e info|info|].
    + (* blocked on the channel *)
      cbn [step_at] in Hstep. rewrite Hi in Hstep.
      destruct (jobs p) as [|repo js] eqn:Hj; injection Hstep as <-; red; red;
        cbn [set_thread set_jobs set_st threads jobs st backupDir].
      * split; [done|]. exists evs. split; [done|].
        split; [apply Forall_insert; [done|constructor]|].
        split; [done|]. by rewrite Hnew, Hperm, Hold.
      * split; [done|]. exists evs. split; [done|].
        split; [apply Forall_insert; [done|rewrite Hdir; constructor]|].
        split.
        { workers_stay Hjobs. done. }
        rewrite Hnew, Hperm, Hold. done.
    + by cbn [step_at] in Hstep; rewrite Hi in Hstep.
    + (* about to look up the path *)
      erewrite step_at_perform in Hstep by (eauto using perform_updateRepo).
      injection Hstep as <-. red; red.
      cbn [set_thread set_jobs set_st threads jobs st backupDir].
      split; [done|].
      eexists (evs ++ [_]). split; [cbn; by rewrite Htr, app_assoc|].
      split.
      { apply Forall_insert.
        - eapply Forall_impl; [exact Hph|]. intros t Ht. by apply phase_mono.
        - destruct (os_Stat _ _) as [|e|e] eqn:Hstat; try constructor.
          eapply phase_doomed. apply elem_of_app. right. by apply list_elem_of_singleton. }
      split.
      { workers_stay Hjobs. by destruct (os_Stat _ _). }
      rewrite failures_snoc, reported_snoc, !app_nil_r, Hnew, Hperm, Hold.
      by destruct (os_Stat _ _).
    + (* [exists] has panicked *)
      cbn [step_at] in Hstep. rewrite Hi in Hstep. injection Hstep as <-.
      exists evs, q, err. done.
    + (* about to run the subprocess *)
      destruct (cmd_Run cmd (world (st p))) as [res w] eqn:Hcmd.
      erewrite step_at_perform in Hstep by (eauto; cbn; by rewrite Hcmd).
      injection Hstep as <-. red; red.
      cbn [set_thread set_jobs set_st threads jobs st backupDir].
      split; [done|].
      exists (evs ++ [EvRun cmd res]). split; [cbn; by rewrite Htr, app_assoc|].
      split.
      { apply Forall_insert.
        - eapply Forall_impl; [exact Hph|]. intros t Ht. by apply phase_mono.
        - destruct res as [e|]; [apply phase_report|apply phase_deferred]. }
      split.
      { workers_stay Hjobs. by destruct res. }
      rewrite failures_snoc, reported_snoc, app_nil_r, Hnew, fmap_app, Hperm, Hold.
      destruct res as [e|].
      * change (afterRun v info (Some e)) with
          (Out (Stderr [VStr e]) (verbose v info)).
        cbn. rewrite <- app_assoc. apply Permutation_app_head.
        symmetry. apply Permutation_cons_append.
      * change (afterRun v info None) with (verbose v info).
        rewrite unreported_verbose. cbn. by rewrite app_nil_r.
    + (* about to print the error *)
      erewrite step_at_perform in Hstep by (eauto; reflexivity).
      injection Hstep as <-. red; red.
      cbn [set_thread set_jobs set_st threads jobs st backupDir].
      split; [done|].
      exists (evs ++ [EvOut (Stderr [VStr e])]).
      split; [cbn; by rewrite Htr, app_assoc|].
      split.
      { apply Forall_insert.
        - eapply Forall_impl; [exact Hph|]. intros t Ht. by apply phase_mono.
        - apply phase_deferred. }
      split.
      { workers_stay Hjobs. unfold verbose. by destruct v. }
      rewrite failures_snoc, reported_snoc, app_nil_r, Hnew, Hperm, Hold.
      rewrite unreported_verbose. cbn. by rewrite <- app_assoc.
    + (* about to write the deferred message *)
      unfold verbose in Hi, Hstep. destruct v.
      * erewrite step_at_perform in Hstep by (eauto; reflexivity).
        injection Hstep as <-. red; red.
        cbn [set_thread set_jobs set_st threads jobs st backupDir].
        split; [done|].
        exists (evs ++ [EvOut (Log info)]).
        split; [cbn; by rewrite Htr, app_assoc|].
        split.
        { apply Forall_insert.
          - eapply Forall_impl; [exact Hph|]. intros t Ht. by apply phase_mono.
          - apply phase_done. }
        split.
        { workers_stay Hjobs. done. }
        rewrite failures_snoc, reported_snoc, !app_nil_r, Hnew, Hperm, Hold. done.
      * cbn [step_at] in Hstep. rewrite Hi in Hstep. injection Hstep as <-.
        red; red. cbn [set_thread set_jobs set_st threads jobs st backupDir].
        split; [done|]. exists evs. split; [done|].
        split; [apply Forall_insert; [done|constructor]|].
        split.
        { workers_stay Hjobs. done. }
        by rewrite Hnew, Hperm, Hold.
    + (* [updateRepo] has returned *)
      cbn [step_at] in Hstep. rewrite Hi in Hstep. injection Hstep as <-.
      red; red. cbn [set_thread set_jobs set_st threads jobs st backupDir].
      split; [done|]. exists evs. split; [done|].
      split; [apply Forall_insert; [done|constructor]|].
      split.
      { workers_stay Hjobs. done. }
      by rewrite Hnew, Hperm, Hold.
  - (* [main] leaves [wg.Wait()] *)
    cbn [step_at] in Hstep. destruct (jobs p); [|done].
    destruct (forallb is_Gone (threads p)) eqn:Hall; [|done].
    injection Hstep as <-. exists evs. split; [done|].
    rewrite Hperm, (all_Gone_unreported _ Hall). by rewrite app_nil_r.
Qed.

Lemma replicate_Idle_unreported (n : nat) :
  replicate n Idle ≫= unreported = [].
Proof. induction n as [|n IH]; [done|]. exact IH. Qed.

Lemma spawn_inv v dir (repos : list Repo) (s0 : State) :
  pool_inv v dir (trace s0) (spawn dir repos s0).
Proof.
  split; [done|]. exists []. cbn [spawn threads jobs st].
  rewrite startWorkers_replicate, workerCount_min.
  split; [by rewrite app_nil_r|]. split; [apply Forall_replicate; constructor|].
  split.
  - intros Hne. split.
    + destruct repos as [|repo repos]; [done|]. unfold maxWorkers.
      destruct (Z.to_nat _) eqn:Hn; [|done]. cbn [length] in Hn. lia.
    + by apply Forall_replicate.
  - by rewrite replicate_Idle_unreported.
Qed.

Lemma reach_inv v dir (repos : list Repo) (s0 : State) (a : Sys) :
  rtc (step v) (Running (spawn dir repos s0)) a →
  sys_inv v dir (trace s0) a.
Proof.
  revert a. apply rtc_ind_r.
  - apply spawn_inv.
  - intros a a' _ (p & c & -> & Hstep) IH. by eapply step_inv.
Qed.

Lemma some_not_Gone (ths : list Thread) :
  forallb is_Gone ths = false → ∃ i t, ths !! i = Some t ∧ t ≠ Gone.
Proof.
  induction ths as [|t ths IH]; [done|]. cbn. intros Hall.
  destruct t; try (by exists 0%nat; eexists; split; [reflexivity|]).
  destruct (IH Hall) as (i & t & Hi & Ht). by exists (S i), t.
Qed.

(** No deadlock: while the pool runs, some goroutine can move. *)
Lemma pool_progress v dir (t0 : list Event) (p : Pool) :
  pool_inv v dir t0 p → ∃ c b, step_at v c p = Some b.
Proof.
  intros (Hdir & evs & Htr & Hph & Hjobs & Hperm).
  destruct (forallb is_Gone (threads p)) eqn:Hall.
  - exists Main. cbn [step_at]. rewrite Hall.
    destruct (jobs p) as [|repo js]; [by eexists|].
    destruct Hjobs as [Hne Hng]; [done|].
    destruct (threads p) as [|t ths]; [done|].
    apply Forall_cons in Hng as [Ht _]. cbn in Hall. by destruct t.
  - destruct (some_not_Gone _ Hall) as (i & t & Hi & Ht).
    exists (Worker i).
    pose proof (Forall_lookup_1 _ _ _ _ Hph Hi) as Hpi.
    destruct Hpi as [| |repo|q err Hin|cmd info|e info|info|]; try done.
    + cbn [step_at]. rewrite Hi. destruct (jobs p); by eexists.
    + eexists. eapply step_at_perform; [done|]. apply perform_updateRepo.
    + cbn [step_at]. rewrite Hi. by eexists.
    + destruct (cmd_Run cmd (world (st p))) as [res w] eqn:Hcmd.
      eexists. eapply step_at_perform; [done|]. cbn. by rewrite Hcmd.
    + eexists. eapply step_at_perform; [done|]. reflexivity.
    + unfold verbose in Hi. destruct v.
      * eexists. eapply step_at_perform; [done|]. reflexivity.
      * cbn [step_at]. rewrite Hi. by eexists.
    + cbn [step_at]. rewrite Hi. by eexists.
Qed.

(** A worker that moves leaves the others as they are. *)
Lemma step_at_others v (p p' : Pool) (i j : nat) :
  step_at v (Worker i) p = Some (Running p') →
  i ≠ j → threads p' !! j = threads p !! j.
Proof.
  intros Hstep Hij. cbn [step_at] in Hstep.
  destruct (threads p !! i) as [[|q|]|]; try done.
  - destruct (jobs p); injection Hstep as <-; by apply list_lookup_insert_ne.
  - destruct q; try done; try (injection Hstep as <-; by apply list_lookup_insert_ne);
      destruct (perform _ _) as [[q' s']|]; try done;
      injection Hstep as <-; by apply list_lookup_insert_ne.
Qed.

Lemma exec_rtc v (sched : list Choice) (a : Sys) :
  rtc (step v) a (exec v sched a).
Proof.
  revert a. induction sched as [|c sched IH]; intros a; [done|].
  destruct a as [p|o s]; [|done]. cbn [exec].
  destruct (step_at v c p) as [b|] eqn:Hstep; [|apply IH].
  eapply rtc_l; [|apply IH]. by exists p, c.
Qed.

End PoolInvariant.

(** ** The pool always stops *)
Section PoolTermination.
Context `{Env}.
Implicit Types (v : bool) (dir : string).

Lemma weight_insert (ths : list Thread) (i : nat) (t t' : Thread) :
  ths !! i = Some t →
  (sum_list (weight <$> <[i := t']> ths) + weight t =
   sum_list (weight <$> ths) + weight t')%nat.
Proof.
  revert i. induction ths as [|x ths IH]; intros [|i] Hi; try done.
  - injection Hi as ->. cbn. lia.
  - specialize (IH i Hi). cbn in *. rewrite <- !Nat.add_assoc. by f_equal.
Qed.

Lemma weight_verbose v (info : list Val) :
  (2 ≤ weight (Busy (verbose v info)) ≤ 3)%nat.
Proof. unfold verbose. destruct v; cbn; lia. Qed.

(** Every move uses up some of the budget. *)
Lemma step_budget v dir (t0 : list Event) (p : Pool) (c : Choice) (b : Sys) :
  pool_inv v dir t0 p →
  step_at v c p = Some b →
  (budget b < budget (Running p))%nat.
Proof.
  intros (Hdir & evs & Htr & Hph & Hjobs & Hperm) Hstep.
  destruct c as [i|].
  - destruct (threads p !! i) as [t|] eqn:Hi;
      [|by cbn [step_at] in Hstep; rewrite Hi in Hstep].
    pose proof (Forall_lookup_1 _ _ _ _ Hph Hi) as Hpi.
    destruct Hpi as [| |repo|q err Hin|cmd info|e info|info|].
    + cbn [step_at] in Hstep. rewrite Hi in Hstep.
      destruct (jobs p) as [|repo js] eqn:Hj; injection Hstep as <-;
        cbn [budget set_thread set_jobs set_st threads jobs st length];
        rewrite ?Hj; cbn [length].
      * pose proof (weight_insert _ _ _ Gone Hi) as Hw. cbn [weight] in Hw. lia.
      * pose proof (weight_insert _ _ _
                      (Busy (updateRepo v (backupDir p) repo)) Hi) as Hw.
        change (weight (Busy (updateRepo v (backupDir p) repo))) with 6%nat in Hw.
        cbn [weight] in Hw. lia.
    + by cbn [step_at] in Hstep; rewrite Hi in Hstep.
    + erewrite step_at_perform in Hstep by (eauto using perform_updateRepo).
      injection Hstep as <-.
      cbn [budget set_thread set_jobs set_st threads jobs st].
      match goal with |- context [<[i := ?t']> _] =>
        pose proof (weight_insert _ _ _ t' Hi) as Hw end.
      change (weight (Busy (updateRepo v dir repo))) with 6%nat in Hw.
      destruct (os_Stat _ _); cbn [weight] in Hw; lia.
    + cbn [step_at] in Hstep. rewrite Hi in Hstep. injection Hstep as <-.
      cbn. lia.
    + destruct (cmd_Run cmd (world (st p))) as [res w] eqn:Hcmd.
      erewrite step_at_perform in Hstep by (eauto; cbn; by rewrite Hcmd).
      injection Hstep as <-.
      cbn [budget set_thread set_jobs set_st threads jobs st].
      match goal with |- context [<[i := ?t']> _] =>
        pose proof (weight_insert _ _ _ t' Hi) as Hw end.
      change (weight (Busy (Run cmd (afterRun v info)))) with 5%nat in Hw.
      destruct res as [e|].
      * change (weight (Busy (afterRun v info (Some e)))) with 4%nat in Hw. lia.
      * change (weight (Busy (afterRun v info None))) with
          (weight (Busy (verbose v info))) in Hw.
        pose proof (weight_verbose v info). lia.
    + erewrite step_at_perform in Hstep by (eauto; reflexivity).
      injection Hstep as <-.
      cbn [budget set_thread set_jobs set_st threads jobs st].
      pose proof (weight_insert _ _ _ (Busy (verbose v info)) Hi) as Hw.
      pose proof (weight_verbose v info).
      change (weight (Busy (Out (Stderr [VStr e]) (verbose v info))))
        with 4%nat in Hw.
      lia.
    + unfold verbose in Hi, Hstep. destruct v.
      * erewrite step_at_perform in Hstep by (eauto; reflexivity).
        injection Hstep as <-.
        cbn [budget set_thread set_jobs set_st threads jobs st].
        pose proof (weight_insert _ _ _ (Busy (Ret ())) Hi) as Hw.
        cbn [weight] in Hw. lia.
      * cbn [step_at] in Hstep. rewrite Hi in Hstep. injection Hstep as <-.
        cbn [budget set_thread set_jobs set_st threads jobs st].
        pose proof (weight_insert _ _ _ Idle Hi) as Hw. cbn [weight] in Hw. lia.
    + cbn [step_at] in Hstep. rewrite Hi in Hstep. injection Hstep as <-.
      cbn [budget set_thread set_jobs set_st threads jobs st].
      pose proof (weight_insert _ _ _ Idle Hi) as Hw. cbn [weight] in Hw. lia.
  - cbn [step_at] in Hstep. destruct (jobs p); [|done].
    destruct (forallb is_Gone (threads p)); [|done].
    injection Hstep as <-. cbn. lia.
Qed.

Lemma budget_spawn dir (repos : list Repo) (s0 : State) :
  (budget (Running (spawn dir repos s0)) ≤ 1 + 8 * length repos)%nat.
Proof.
  cbn [budget spawn jobs threads].
  rewrite startWorkers_replicate, workerCount_min, fmap_replicate.
  assert (Hsum : ∀ n, sum_list (replicate n 1%nat) = n).
  { induction n as [|n IH]; [done|]. cbn in *. by f_equal. }
  change (weight Idle) with 1%nat. rewrite Hsum. lia.
Qed.

(** No run of the pool is longer than one move more than eight per
    repository, and from every state it reaches the process can stop, and
    does so when the moves go on. *)
Lemma pool_always_stops v dir (repos : list Repo) (s0 : State) (a : Sys) (n : nat) :
  nsteps (step v) n (Running (spawn dir repos s0)) a →
  (n ≤ 1 + 8 * length repos)%nat ∧
  ∃ o s, rtc (step v) a (Stopped o s).
Proof.
  intros Hn.
  assert (Hbound : (n + budget a ≤ budget (Running (spawn dir repos s0)))%nat).
  { revert a Hn. induction n as [|n IH]; intros a Hn.
    - inversion Hn; subst. lia.
    - apply nsteps_inv_r in Hn as (a' & Hn & Hstep).
      specialize (IH a' Hn).
      pose proof (reach_inv v dir _ _ _ (rtc_nsteps_2 _ _ _ Hn)) as Hinv.
      destruct Hstep as (p & c & -> & Hstep).
      pose proof (step_budget _ _ _ _ _ _ Hinv Hstep). lia. }
  split; [pose proof (budget_spawn dir repos s0); lia|].
  pose proof (reach_inv v dir _ _ _ (rtc_nsteps_2 _ _ _ Hn)) as Hinv.
  clear Hn Hbound. remember (budget a) as m eqn:Hm.
  revert a Hm Hinv. induction (lt_wf m) as [m _ IH]. intros a -> Hinv.
  destruct a as [p|o s]; [|by exists o, s].
  destruct (pool_progress _ _ _ _ Hinv) as (c & b & Hstep).
  destruct (IH (budget b) (step_budget _ _ _ _ _ _ Hinv Hstep) b eq_refl)
    as (o & s & Hrest).
  { by eapply step_inv. }
  exists o, s. eapply rtc_l; [|exact Hrest]. by exists p, c.
Qed.

(** C1.  However the workers are scheduled, a subprocess that fails stops
    nothing.  While the pool runs, some goroutine can always move, the
    process can run to its end, a worker that moves leaves the others as they
    are, and every failure has been printed on standard error or is about to
    be.  The process stops in one of
    two ways only: [main] returns, with exit status 0 and every failure
    printed once, or [exists] has panicked on an error of [os.Stat] other
    than "does not exist", with exit status 2. *)
Theorem subprocess_failure_is_not_fatal v dir (repos : list Repo)
    (s0 : State) (a : Sys) :
  rtc (step v) (Running (spawn dir repos s0)) a →
  ∃ evs,
    trace (final_state a) = trace s0 ++ evs ∧
    match a with
    | Running p =>
        (failures evs).*2 ≡ₚ reported evs ++ (threads p ≫= unreported) ∧
        (∃ c b, step_at v c p = Some b) ∧
        (∃ o s, rtc (step v) a (Stopped o s)) ∧
        (∀ i j p', step_at v (Worker i) p = Some (Running p') →
                   i ≠ j → threads p' !! j = threads p !! j)
    | Stopped o s =>
        (o = Returned () ∧ status a = Some 0 ∧
         (failures evs).*2 ≡ₚ reported evs) ∨
        (∃ q err, o = Panicked [VStr err] ∧ status a = Some 2 ∧
                  EvStat q (ErrOther err) ∈ evs)
    end.
Proof.
  intros Hreach. pose proof (reach_inv _ _ _ _ _ Hreach) as Hinv.
  destruct a as [p|o s].
  - pose proof (pool_progress _ _ _ _ Hinv) as Hprog.
    destruct Hinv as (Hdir & evs & Htr & Hph & Hjobs & Hperm).
    apply rtc_nsteps_1 in Hreach as [n Hn].
    destruct (pool_always_stops _ _ _ _ _ _ Hn) as [_ Hstop].
    exists evs. split; [done|]. split; [done|]. split; [done|].
    split; [done|]. intros i j p'. apply step_at_others.
  - destruct o as [[]|val|code|]; cbn in Hinv; try done.
    + destruct Hinv as (evs & Htr & Hperm). exists evs. split; [done|].
      left. done.
    + destruct Hinv as (evs & q & err & Htr & -> & Hin). exists evs.
      split; [done|]. right. by exists q, err.
Qed.

End PoolTermination.

(** ** The front end *)
Section FrontendFacts.

(** The exit status of the front end is decided by what [Run] returns: 1
    when it returns an error, 0 when it does not; the updates it sends are
    logged and nothing more. *)
Lemma frontend_exit_status (Run : Frontend.Config → list Frontend.Update * option error)
    (secret : string) (verboseFlag : bool) (a0 a1 : string) :
  (Frontend.main Run secret verboseFlag [a0; a1]).2 =
  match (Run {| Frontend.Account := a0; Frontend.Dir := a1;
                Frontend.Secret := secret |}).2 with
  | Some _ => 1
  | None => 0
  end.
Proof.
  unfold Frontend.main.
  destruct (Run _) as [updates [e|]]; reflexivity.
Qed.

End FrontendFacts.

(** * The model at work *)
Section Runs.
Local Existing Instance Sim.env.

Lemma getCategory_classifies_witness :
  run (getCategory "octo") (Sim.start Sim.octo) =
  (Returned "users",
   record (Sim.start Sim.octo) Sim.octo (EvGet (users_url "octo"))).
Proof.
  refine (proj1 (getCategory_classifies "octo" (Sim.start Sim.octo) _ _ _ _) _).
  - vm_compute; reflexivity.
  - vm_compute; reflexivity.
  - vm_compute; reflexivity.
Defined.

Lemma getRepos_keeps_going_witness :
  run (getRepos 1 Sim.page1) (Sim.start Sim.truncated) =
  (Returned [Sim.repo "alpha"],
   record (Sim.start Sim.truncated) Sim.truncated (EvGet Sim.page1)).
Proof.
  eapply (getRepos_keeps_going_after_decode_failure 0 Sim.page1
            (Sim.start Sim.truncated)).
  - vm_compute; reflexivity.
  - vm_compute; reflexivity.
  - vm_compute; reflexivity.
  - vm_compute; reflexivity.
Defined.

Lemma getRepos_concatenates_pages_witness :
  ∃ s' repos,
    run (getRepos 2 Sim.page1) (Sim.start Sim.octo) = (Returned repos, s') ∧
    repos = [Sim.repo "alpha"; Sim.repo "beta"; Sim.repo "gamma"] ∧
    length repos = 3%nat.
Proof.
  assert (Hpages : ∃ r1 r2,
             pages Sim.page1 (Sim.start Sim.octo) [r1; r2]
               (record (record (Sim.start Sim.octo) Sim.octo (EvGet Sim.page1))
                       Sim.octo (EvGet Sim.page2)) ∧
             page_repos r1 = [Sim.repo "alpha"; Sim.repo "beta"] ∧
             page_repos r2 = [Sim.repo "gamma"]).
  { eexists _, _. split.
    - eapply pages_next; [vm_compute; reflexivity|vm_compute; reflexivity|vm_compute; reflexivity|].
      eapply pages_last; [vm_compute; reflexivity|vm_compute; reflexivity|vm_compute; reflexivity].
    - split; vm_compute; reflexivity. }
  destruct Hpages as (r1 & r2 & Hpages & Hr1 & Hr2).
  destruct (getRepos_concatenates_pages Sim.page1 (Sim.start Sim.octo) _
              [r1; r2] 2 Hpages) as (repos & Hrun & Hcat & Hlen & _).
  - cbn. lia.
  - eexists _, repos. split; [exact Hrun|].
    cbn in Hcat, Hlen. rewrite Hr1, Hr2 in Hcat, Hlen.
    split; [exact Hcat|exact Hlen].
Defined.

(** A worker that has just taken [alpha] in the locked directory. *)
Lemma exists_error_stops_the_run_witness :
  let p := {| backupDir := "/backup"; jobs := [];
              threads := [Busy (updateRepo true "/backup" (Sim.repo "alpha"))];
              st := Sim.start Sim.locked |} in
  exec true [Worker 0; Worker 0] (Running p) =
    Stopped (Panicked [VStr "permission denied"])
      (record (st p) Sim.locked
         (EvStat "/backup/alpha" (ErrOther "permission denied"))).
Proof.
  intros p.
  refine (proj1 (proj2 (proj1 (exists_error_stops_the_run true p 0
            (Sim.repo "alpha") _) "permission denied" _))).
  - reflexivity.
  - vm_compute; reflexivity.
Defined.

Lemma first_page_asks_for_100_witness :
  ∃ rest,
    requests (trace (final_state (boot true 3 ["octo"; "/backup"]
                                    (Sim.start Sim.octo)))) =
    ["https://api.github.com/users/octo";
     "https://api.github.com/users/octo/repos?per_page=100"] ++ rest.
Proof.
  destruct (first_page_asks_for_100 true 2 "octo" "/backup" "users"
              (Sim.start Sim.octo)
              (record (Sim.start Sim.octo) Sim.octo (EvGet (users_url "octo")))
              {| Scheme := ""; Host := "";
                 Path := "https://api.github.com/users/octo/repos";
                 RawQuery := ""; Fragment := "" |})
    as (_ & _ & _ & rest & Hreq).
  - vm_compute; reflexivity.
  - vm_compute; reflexivity.
  - exists rest. exact Hreq.
Defined.

Lemma updateRepo_logs_after_failure_witness :
  logged (trace (run (updateRepo true "/backup" (Sim.repo "beta"))
                     (Sim.start Sim.locked)).2) =
    [[VStr "Updated repository:"; VStr "beta"]] ∧
  logged (trace (run (updateRepo true "/backup" (Sim.repo "gamma"))
                     (Sim.start Sim.octo)).2) =
    [[VStr "Cloned  repository:"; VStr "gamma"]].
Proof.
  split.
  - rewrite (proj1 (updateRepo_logs_after_failure "/backup" (Sim.repo "beta")
               (Sim.start Sim.locked) "exit status 1" Sim.locked));
      vm_compute; reflexivity.
  - rewrite (proj2 (updateRepo_logs_after_failure "/backup" (Sim.repo "gamma")
               (Sim.start Sim.octo) "exit status 128" Sim.octo)
               "no such file or directory"); vm_compute; reflexivity.
Defined.

Lemma octo_run_stops :
  Sim.octo_run = Stopped (Returned ()) Sim.octo_final ∧
  boot true 3 ["octo"; "/backup"] (Sim.start Sim.octo) =
    Running (spawn "/backup" [Sim.repo "alpha"; Sim.repo "beta"; Sim.repo "gamma"]
               Sim.octo_start).
Proof. split; vm_compute; reflexivity. Qed.

Lemma subprocess_failure_is_not_fatal_witness :
  ∃ evs,
    trace Sim.octo_final = trace Sim.octo_start ++ evs ∧
    (failures evs).*2 ≡ₚ reported evs.
Proof.
  destruct (subprocess_failure_is_not_fatal true "/backup"
              [Sim.repo "alpha"; Sim.repo "beta"; Sim.repo "gamma"]
              Sim.octo_start (Stopped (Returned ()) Sim.octo_final))
    as (evs & Htr & Hend).
  - rewrite <- (proj1 octo_run_stops). unfold Sim.octo_run, main.
    rewrite (proj2 octo_run_stops). apply exec_rtc.
  - exists evs. split; [exact Htr|].
    destruct Hend as [(_ & _ & Hperm)|(q & err & Ho & _)];
      [exact Hperm|discriminate Ho].
Defined.

(** C1, as stated, fails: cloning [gamma] fails, and the process ends with
    exit status 0. *)
Lemma failed_clone_exits_zero :
  ¬ (failures (trace (final_state Sim.octo_run)) ≠ [] →
     ∃ code, status Sim.octo_run = Some code ∧ code ≠ 0).
Proof.
  rewrite (proj1 octo_run_stops). intros Hclaim.
  destruct Hclaim as (code & Hcode & Hne).
  - vm_compute. discriminate.
  - injection Hcode as <-. by apply Hne.
Qed.

(** The truncated listing: [main] clones the one repository that was decoded
    and ends with exit status 0. *)
Example truncated_listing_is_backed_up :
  let a := main true 3 ["octo"; "/backup"] [Worker 0; Worker 0; Worker 0;
                Worker 0; Worker 0; Worker 0; Worker 0; Main]
             (Sim.start Sim.truncated) in
  commands (trace (final_state a)) =
    [{| Args := ["git"; "clone"; GitUrl (Sim.repo "alpha"); "/backup/alpha"];
        Dir := "" |}] ∧
  status a = Some 0.
Proof. split; vm_compute; reflexivity. Qed.

(** The [next] entry in second place: [main] asks for the first page only
    and backs up two of the three repositories. *)
Example reordered_link_ends_the_listing :
  let a := main true 3 ["octo"; "/backup"] Sim.round_robin
             (Sim.start Sim.reordered) in
  requests (trace (final_state a)) =
    ["https://api.github.com/users/octo"; Sim.page1] ∧
  length (commands (trace (final_state a))) = 2%nat ∧
  status a = Some 0.
Proof. split; [|split]; vm_compute; reflexivity. Qed.

End Runs.


(** * Further properties *)

(** ** Discovery, end to end *)
Section DiscoveryMore.
Context `{Env}.

Lemma getCategory_run (name : string) (s : State) :
  run (getCategory name) s =
  let '(res, w) := http_Get (users_url name) (world s) in
  (match res with
   | Err err => Panicked [VStr err]
   | Ok r =>
       if bool_decide (StatusCode r >= 300)
       then Panicked (bad_status (RequestURL r) (StatusCode r))
       else
         let account_Type := (decode_account (Body r)).1 in
         if String.eqb account_Type "User" then Returned "users"
         else if String.eqb account_Type "Organization" then Returned "orgs"
         else Panicked [VStr "Unknown type of account "; VStr account_Type;
                        VStr " for name "; VStr name]
   end,
   record s w (EvGet (users_url name))).
Proof.
  unfold getCategory. cbn [run]. fold (users_url name).
  destruct (http_Get (users_url name) (world s)) as [[r|err] w]; [|done].
  case_bool_decide; [done|]. cbn zeta.
  destruct (String.eqb _ "User"); [done|].
  by destruct (String.eqb _ "Organization").
Qed.

Lemma discover_two_args (v : bool) (fuel : nat) (name dir : string) :
  discover v fuel [name; dir] =
  (category ← getCategory name;
   u ← setMaxPageSize (repos_url category name);
   repos ← getRepos fuel u;
   kind ← match GoStrings.slice category 0 (GoStrings.len category - 1) with
          | Some k => Ret k
          | None => Panic slice_out_of_range
          end;
   verbose v [VStr "Backup for"; VStr kind; VStr name; VStr "with";
              VInt (Z.of_nat (length repos)); VStr "repositories"] ;;
   Ret (dir, repos)).
Proof. reflexivity. Qed.

(** What stops [getCategory] stops [main]. *)
Lemma main_stops_with_getCategory (v : bool) (fuel : nat) (name dir : string)
    (sched : list Choice) (s s' : State) (val : list Val) :
  run (getCategory name) s = (Panicked val, s') →
  main v fuel [name; dir] sched s = Stopped (Panicked val) s'.
Proof.
  intros Hrun. unfold main, boot. rewrite discover_two_args, run_bind, Hrun.
  apply exec_Stopped.
Qed.

(** X1.  With a number of arguments other than two, [main] prints the usage
    text and exits with status 1; it makes no request and starts no worker. *)
Theorem main_wrong_argument_count (v : bool) (fuel : nat) (args : list string)
    (sched : list Choice) (s : State) :
  length args ≠ 2%nat →
  main v fuel args sched s =
    Stopped (Exited 1) (record s (world s) (EvOut Usage)) ∧
  status (main v fuel args sched s) = Some 1.
Proof.
  intros Hlen.
  assert (Hmain : main v fuel args sched s =
                  Stopped (Exited 1) (record s (world s) (EvOut Usage))).
  { unfold main, boot.
    destruct args as [|a0 [|a1 [|a2 args]]]; try done; apply exec_Stopped. }
  split; [exact Hmain|]. by rewrite Hmain.
Qed.

(** X2.  When the account lookup fails, or answers with a status of 300 or
    more, [getCategory] panics and [main] stops with exit status 2 after that
    one request. *)
Theorem getCategory_failure_is_fatal (v : bool) (fuel : nat) (name dir : string)
    (sched : list Choice) (s : State) (res : result (Response BodyT))
    (w : World) :
  http_Get (users_url name) (world s) = (res, w) →
  match res with
  | Err _ => True
  | Ok r => StatusCode r >= 300
  end →
  ∃ val,
    main v fuel [name; dir] sched s =
      Stopped (Panicked val) (record s w (EvGet (users_url name))) ∧
    val = match res with
          | Err err => [VStr err]
          | Ok r => bad_status (RequestURL r) (StatusCode r)
          end ∧
    status (main v fuel [name; dir] sched s) = Some 2.
Proof.
  intros Hget Hres.
  assert (Hrun : ∃ val, run (getCategory name) s =
                   (Panicked val, record s w (EvGet (users_url name))) ∧
                 val = match res with
                       | Err err => [VStr err]
                       | Ok r => bad_status (RequestURL r) (StatusCode r)
                       end).
  { rewrite getCategory_run, Hget. destruct res as [r|err].
    - rewrite bool_decide_eq_true_2 by done. by eexists.
    - by eexists. }
  destruct Hrun as (val & Hrun & Hval). exists val.
  rewrite (main_stops_with_getCategory _ _ _ _ _ _ _ _ Hrun). done.
Qed.

(** X3.  [getCategory] returns nothing but "users" or "orgs", and whatever it
    does it makes exactly one request, for the account's own address. *)
Theorem getCategory_returns_a_category (name : string) (s : State) :
  trace (run (getCategory name) s).2 = trace s ++ [EvGet (users_url name)] ∧
  ∀ category, (run (getCategory name) s).1 = Returned category →
              category = "users" ∨ category = "orgs".
Proof.
  rewrite getCategory_run.
  destruct (http_Get (users_url name) (world s)) as [[r|err] w];
    (split; [done|]); intros category; cbn [fst]; [|done].
  case_bool_decide; [done|]. cbn zeta.
  destruct (String.eqb _ "User"); [intros [= <-]; by left|].
  destruct (String.eqb _ "Organization"); [intros [= <-]; by right|done].
Qed.

(** X4.  When the address of the first page does not parse,
    [setMaxPageSize] panics: [main] stops with exit status 2 right after the
    account lookup, before any page is asked for. *)
Theorem setMaxPageSize_failure_is_fatal (v : bool) (fuel : nat)
    (name dir category : string) (sched : list Choice) (s s1 : State)
    (err : error) :
  run (getCategory name) s = (Returned category, s1) →
  url_Parse (repos_url category name) = Err err →
  setMaxPageSize (repos_url category name) = Panic [VStr err] ∧
  main v fuel [name; dir] sched s = Stopped (Panicked [VStr err]) s1 ∧
  status (main v fuel [name; dir] sched s) = Some 2.
Proof.
  intros Hcat Hparse.
  assert (Hset : setMaxPageSize (repos_url category name) = Panic [VStr err]).
  { unfold setMaxPageSize. by rewrite Hparse. }
  assert (Hmain : main v fuel [name; dir] sched s =
                  Stopped (Panicked [VStr err]) s1).
  { unfold main, boot. rewrite discover_two_args, run_bind, Hcat.
    rewrite Hset. apply exec_Stopped. }
  split; [exact Hset|]. split; [exact Hmain|]. by rewrite Hmain.
Qed.

Lemma network_only_bind {A B} (p : Prog A) (f : A → Prog B) :
  network_only p → (∀ a, network_only (f a)) → network_only (p ≫= f).
Proof.
  intros Hp Hf. induction Hp as [a|val|code| |u k Hk IH|l k Hk IH].
  - apply Hf.
  - apply network_panic.
  - apply network_exit.
  - apply network_diverge.
  - apply network_get. intros r. apply IH.
  - apply network_out. apply IH.
Qed.

Lemma network_only_nextPage (r : Response BodyT) : network_only (nextPage r).
Proof. unfold nextPage. repeat case_match; constructor. Qed.

Lemma network_only_getRepos (fuel : nat) (u : string) :
  network_only (getRepos fuel u).
Proof.
  revert u. induction fuel as [|fuel IH]; intros u; [constructor|].
  cbn [getRepos]. apply network_get. intros [r|err]; [|constructor].
  case_bool_decide; [constructor|].
  apply network_only_bind; [apply network_only_nextPage|].
  intros [u'|]; [|constructor].
  apply network_only_bind; [apply IH|]. intros more. constructor.
Qed.

Lemma network_only_verbose (v : bool) (info : list Val) :
  network_only (verbose v info).
Proof. unfold verbose. destruct v; repeat constructor. Qed.

Lemma network_only_discover (v : bool) (fuel : nat) (args : list string) :
  network_only (discover v fuel args).
Proof.
  unfold discover. apply network_only_bind.
  { unfold parseArgs. repeat case_match; repeat constructor. }
  intros [name dir]. apply network_only_bind.
  { unfold getCategory. apply network_get. intros r.
    repeat case_match; constructor. }
  intros category. apply network_only_bind.
  { unfold setMaxPageSize. case_match; constructor. }
  intros u. apply network_only_bind; [apply network_only_getRepos|].
  intros repos. apply network_only_bind; [case_match; constructor|].
  intros kind. apply network_only_bind; [apply network_only_verbose|].
  intros _. constructor.
Qed.

Lemma network_only_run {A} (p : Prog A) (s : State) :
  network_only p →
  ∃ evs, trace (run p s).2 = trace s ++ evs ∧ Forall network_event evs.
Proof.
  intros Hp. revert s.
  induction Hp as [a|val|code| |u k Hk IH|l k Hk IH]; intros s; cbn [run];
    try (exists []; by rewrite app_nil_r).
  - destruct (http_Get u (world s)) as [r w].
    destruct (IH r (record s w (EvGet u))) as (evs & -> & Hevs).
    exists (EvGet u :: evs). cbn [record trace]. rewrite <- app_assoc.
    split; [done|]. by constructor.
  - destruct (IH (record s (world s) (EvOut l))) as (evs & -> & Hevs).
    exists (EvOut l :: evs). cbn [record trace]. rewrite <- app_assoc.
    split; [done|]. by constructor.
Qed.

(** X5.  Up to the start of the workers [main] only talks to the network and
    writes lines: whatever the arguments and the answers, it has looked up no
    path and run no subprocess; in particular a run that stops during
    discovery has touched nothing on disk. *)
Theorem discovery_touches_only_the_network (v : bool) (fuel : nat)
    (args : list string) (s : State) :
  ∃ evs,
    trace (final_state (boot v fuel args s)) = trace s ++ evs ∧
    Forall network_event evs ∧
    commands evs = [].
Proof.
  rewrite final_state_boot.
  destruct (network_only_run (discover v fuel args) s
              (network_only_discover v fuel args)) as (evs & Htr & Hevs).
  exists evs. split; [done|]. split; [done|].
  clear Htr. induction Hevs as [|e evs He Hevs IH]; [done|].
  destruct e; try done; exact IH.
Qed.

(** X6.  When the account is classified, the first address parses and the
    listing returns, [main] logs one summary line in verbose mode (the
    category without its final s, the name, the number of repositories) and
    starts the pool on exactly the repositories listed, in the backup
    directory given. *)
Theorem discover_hands_over (v : bool) (fuel : nat)
    (name dir category : string) (s s1 s2 : State) (p : URL)
    (repos : list Repo) :
  let first :=
    URL_String (set_RawQuery p
      (Values_Encode (Values_Set (URL_Query p) "per_page" "100"))) in
  run (getCategory name) s = (Returned category, s1) →
  url_Parse (repos_url category name) = Ok p →
  run (getRepos fuel first) s1 = (Returned repos, s2) →
  boot v fuel [name; dir] s =
    Running (spawn dir repos
               (if v then record s2 (world s2) (EvOut (summary category name repos))
                else s2)).
Proof.
  intros first Hcat Hparse Hrepos.
  assert (Hkind : category = "users" ∨ category = "orgs").
  { revert Hcat. rewrite getCategory_run.
    destruct (http_Get _ _) as [[r|err] w]; [|done].
    case_bool_decide; [done|]. cbn zeta.
    destruct (String.eqb _ "User"); [intros [= <- _]; by left|].
    destruct (String.eqb _ "Organization"); [intros [= <- _]; by right|done]. }
  unfold boot. rewrite discover_two_args, run_bind, Hcat.
  unfold setMaxPageSize. rewrite Hparse.
  change (Ret ?a ≫= ?f) with (f a). cbn beta zeta. fold first.
  rewrite run_bind, Hrepos.
  destruct Hkind as [-> | ->]; destruct v; reflexivity.
Qed.

End DiscoveryMore.


(** ** The listing, page after page *)
Section ListingMore.
Context `{Env}.

(** After a walk, [getRepos] goes on from where the walk has led, and puts
    the repositories walked past in front of what comes back. *)
Lemma getRepos_walk (u u' : string) (s s' : State)
    (rs : list (Response BodyT)) :
  walk u s rs u' s' →
  ∀ fuel,
    run (getRepos (length rs + fuel) u) s =
    match run (getRepos fuel u') s' with
    | (Returned more, s'') => (Returned (concat (page_repos <$> rs) ++ more), s'')
    | (Panicked val, s'') => (Panicked val, s'')
    | (Exited code, s'') => (Exited code, s'')
    | (Diverged, s'') => (Diverged, s'')
    end.
Proof.
  induction 1 as [u s|u s r w u1 rs u' s' Hget Hcode Hnext Hwalk IH];
    intros fuel.
  - cbn [length Nat.add fmap list_fmap concat app].
    by destruct (run (getRepos fuel u) s) as [[more|val|code|] s''].
  - cbn [length Nat.add getRepos run]. rewrite Hget.
    rewrite bool_decide_eq_false_2 by lia.
    rewrite run_bind, Hnext. cbn [run]. rewrite run_bind, IH.
    destruct (run (getRepos fuel u') s') as [[more|val|code|] s'']; try done.
    cbn [run fmap list_fmap concat]. by rewrite <- app_assoc.
Qed.

(** X7.  A request that fails, or a status of 300 or more, on a later page
    stops [getRepos] with a panic: the repositories of the pages already
    fetched are not returned. *)
Theorem getRepos_failure_on_a_later_page (u u' : string) (s s' : State)
    (rs : list (Response BodyT)) (res : result (Response BodyT)) (w : World)
    (fuel : nat) :
  walk u s rs u' s' →
  http_Get u' (world s') = (res, w) →
  match res with
  | Err _ => True
  | Ok r => StatusCode r >= 300
  end →
  run (getRepos (length rs + S fuel) u) s =
  (Panicked match res with
            | Err err => [VStr err]
            | Ok r => bad_status u' (StatusCode r)
            end,
   record s' w (EvGet u')).
Proof.
  intros Hwalk Hget Hres. rewrite (getRepos_walk _ _ _ _ _ Hwalk).
  cbn [getRepos run]. rewrite Hget. destruct res as [r|err]; [|done].
  by rewrite bool_decide_eq_true_2.
Qed.


(** X9.  A first entry that carries [rel] equal to [next] but fewer than two
    bytes before its first semicolon makes the slice expression of [getRepos]
    panic: the listing stops with "slice bounds out of range". *)
Theorem getRepos_short_address_panics (fuel : nat) (u : string) (s : State)
    (r : Response BodyT) (w : World) (a t tail : string) (more : list string) :
  http_Get u (world s) = (Ok r, w) →
  StatusCode r < 300 →
  Header r !! "Link" = Some (((a +:+ String ";" t) +:+ tail) :: more) →
  tail = "" ∨ (∃ t', tail = String "," t') →
  occurs "," (a +:+ String ";" t) = false →
  occurs ";" a = false →
  (String.length a < 2)%nat →
  GoStrings.Contains (a +:+ String ";" t) rel_next = true →
  run (getRepos (S fuel) u) s =
  (Panicked slice_out_of_range, record s w (EvGet u)).
Proof.
  intros Hget Hcode Hlink Htail Hcomma Hsemi Hlen Hrel.
  cbn [getRepos run]. rewrite Hget. rewrite bool_decide_eq_false_2 by lia.
  rewrite run_bind. unfold nextPage. rewrite Hlink. cbn [from_option id].
  assert (Hfirst : ∃ fs, GoStrings.Split ((a +:+ String ";" t) +:+ tail) "," =
                         (a +:+ String ";" t) :: fs).
  { destruct Htail as [->|[t' ->]].
    - exists []. rewrite append_nil_r. by apply (fields_whole ","%char).
    - eexists. by apply (fields_cut ","%char). }
  destruct Hfirst as [fs ->]. rewrite Hrel.
  change (GoStrings.Split ?x ";") with (GoStrings.fields ";" 0 x).
  rewrite (fields_cut ";"%char) by done.
  unfold GoStrings.slice, GoStrings.len.
  rewrite bool_decide_eq_false_2 by lia. reflexivity.
Qed.

(** X10.  [getRepos] keeps no record of the addresses it has been to: when a
    page names itself as the next one, and is served again each time, the
    listing never returns, however deep the recursion is allowed to go. *)
Theorem getRepos_self_link_never_returns (served : World → Prop) (u : string)
    (r : Response BodyT) :
  (∀ w, served w → ∃ w', http_Get u w = (Ok r, w') ∧ served w') →
  StatusCode r < 300 →
  nextPage r = Ret (Some u) →
  ∀ fuel s, served (world s) → (run (getRepos fuel u) s).1 = Diverged.
Proof.
  intros Hget Hcode Hnext fuel.
  induction fuel as [|fuel IH]; intros s Hs; [done|].
  cbn [getRepos run]. destruct (Hget (world s) Hs) as (w & -> & Hw).
  rewrite bool_decide_eq_false_2 by lia.
  rewrite run_bind, Hnext. cbn [run]. rewrite run_bind.
  specialize (IH (record s w (EvGet u)) Hw).
  by destruct (run (getRepos fuel u) _) as [[more|val|code|] s'].
Qed.

End ListingMore.


(** ** One repository, again *)
Section OneRepositoryMore.
Context `{Env}.

(** X11.  Without the verbose flag [updateRepo] writes nothing but the error
    of the subprocess when it fails: a repository that is backed up leaves
    no line. *)
Theorem updateRepo_quiet_unless_failure (backupDir : string) (repo : Repo)
    (s : State) :
  ∃ evs,
    trace (run (updateRepo false backupDir repo) s).2 = trace s ++ evs ∧
    written evs = (λ ce, Stderr [VStr ce.2]) <$> failures evs.
Proof.
  rewrite updateRepo_run.
  destruct (os_Stat _ (world s)) as [|e|e]; cbn zeta iota.
  - destruct (cmd_Run _ _) as [[err|] w]; by eexists.
  - destruct (cmd_Run _ _) as [[err|] w]; by eexists.
  - by eexists.
Qed.

(** X12.  A repository whose path was missing and whose clone has succeeded
    and left the path in place is updated, not cloned again, by the next
    [updateRepo]: the next command is [git pull] in that path. *)
Theorem cloned_repository_is_updated_next (v : bool) (backupDir : string)
    (repo : Repo) (s : State) (e : error) (w : World) :
  let repoDir := path_Join [backupDir; Name repo] in
  let clone := {| Args := ["git"; "clone"; GitUrl repo; repoDir]; Dir := "" |} in
  let pull := {| Args := ["git"; "pull"]; Dir := repoDir |} in
  os_Stat repoDir (world s) = ErrNotExist e →
  cmd_Run clone (world s) = (None, w) →
  os_Stat repoDir w = StatInfo →
  let s1 := (run (updateRepo v backupDir repo) s).2 in
  let s2 := (run (updateRepo v backupDir repo) s1).2 in
  (run (updateRepo v backupDir repo) s).1 = Returned () ∧
  (run (updateRepo v backupDir repo) s1).1 = Returned () ∧
  ∃ evs, trace s2 = trace s ++ evs ∧ commands evs = [clone; pull].
Proof.
  intros repoDir clone pull Hstat Hclone Hthere s1 s2. subst s1 s2.
  rewrite !updateRepo_run. fold repoDir. rewrite Hstat. cbn zeta iota.
  fold clone. rewrite Hclone. cbn [snd fst world]. rewrite Hthere.
  cbn zeta iota. fold pull.
  destruct (cmd_Run pull w) as [res w2].
  split; [done|]. split; [done|]. cbn [snd trace].
  rewrite <- app_assoc. eexists. split; [reflexivity|].
  destruct res; destruct v; reflexivity.
Qed.

(** X22.  In verbose mode a subprocess that succeeds is followed by exactly
    one line, "Updated repository:" after a pull and "Cloned  repository:"
    after a clone, with the name of the repository; no error line is
    written. *)
Theorem updateRepo_logs_after_success (backupDir : string) (repo : Repo)
    (s : State) (w : World) :
  let repoDir := path_Join [backupDir; Name repo] in
  let pull := {| Args := ["git"; "pull"]; Dir := repoDir |} in
  let clone := {| Args := ["git"; "clone"; GitUrl repo; repoDir]; Dir := "" |} in
  (os_Stat repoDir (world s) = StatInfo →
   cmd_Run pull (world s) = (None, w) →
   run (updateRepo true backupDir repo) s =
   (Returned (),
    {| world := w;
       trace := trace s ++
         [EvStat repoDir StatInfo; EvRun pull None;
          EvOut (Log [VStr "Updated repository:"; VStr (Name repo)])] |})) ∧
  (∀ e, os_Stat repoDir (world s) = ErrNotExist e →
   cmd_Run clone (world s) = (None, w) →
   run (updateRepo true backupDir repo) s =
   (Returned (),
    {| world := w;
       trace := trace s ++
         [EvStat repoDir (ErrNotExist e); EvRun clone None;
          EvOut (Log [VStr "Cloned  repository:"; VStr (Name repo)])] |})).
Proof.
  intros repoDir pull clone. split.
  - intros Hstat Hrun. rewrite updateRepo_run. fold repoDir. rewrite Hstat.
    cbn zeta iota. fold pull. rewrite Hrun. reflexivity.
  - intros e Hstat Hrun. rewrite updateRepo_run. fold repoDir. rewrite Hstat.
    cbn zeta iota. fold clone. rewrite Hrun. reflexivity.
Qed.

End OneRepositoryMore.


(** ** The books of the pool *)
Section Ledger.
Context `{Env}.
Implicit Types (v : bool) (dir : string).

Lemma bind_insert {B} (f : Thread → list B) (ths : list Thread) (i : nat)
    (t : Thread) :
  ths !! i = Some t →
  ∃ rest,
    ths ≫= f ≡ₚ f t ++ rest ∧
    ∀ t', <[i := t']> ths ≫= f ≡ₚ f t' ++ rest.
Proof.
  intros Hi. exists ((take i ths ≫= f) ++ (drop (S i) ths ≫= f)). split.
  - rewrite <- (take_drop_middle ths i t Hi) at 1.
    rewrite bind_app, bind_cons. apply Permutation_app_swap_app.
  - intros t'. rewrite insert_take_drop by (by eapply lookup_lt_Some).
    rewrite bind_app, bind_cons. apply Permutation_app_swap_app.
Qed.

Lemma stats_snoc (evs : list Event) (e : Event) :
  stats (evs ++ [e]) = stats evs ++ match e with EvStat q _ => [q] | _ => [] end.
Proof. unfold stats. rewrite omap_app. f_equal. by destruct e. Qed.

Lemma refused_snoc (evs : list Event) (e : Event) :
  refused (evs ++ [e]) =
  refused evs ++ match e with EvStat q (ErrOther _) => [q] | _ => [] end.
Proof.
  unfold refused. rewrite omap_app. f_equal. by destruct e as [|q []| |].
Qed.

Lemma commands_snoc (evs : list Event) (e : Event) :
  commands (evs ++ [e]) =
  commands evs ++ match e with EvRun c _ => [c] | _ => [] end.
Proof. unfold commands. rewrite omap_app. f_equal. by destruct e. Qed.

Lemma pending_verbose v (info : list Val) :
  pending (Busy (verbose v info)) = [] ∧
  unstarted (Busy (verbose v info)) = [] ∧
  lost (Busy (verbose v info)) = [].
Proof. unfold verbose. by destruct v. Qed.

Lemma all_Gone_nothing_left {B} (f : Thread → list B) (ths : list Thread) :
  f Gone = [] → forallb is_Gone ths = true → ths ≫= f = [].
Proof.
  intros Hf. induction ths as [|t ths IH]; [done|]. cbn.
  intros [Ht Hths]%andb_prop. destruct t; try done. rewrite Hf. by apply IH.
Qed.

Lemma ledger_spawn dir (repos : list Repo) (s0 : State) :
  ledger dir repos [] (spawn dir repos s0).
Proof.
  assert (Hidle : ∀ {B} (f : Thread → list B) n,
             f Idle = [] → replicate n Idle ≫= f = []).
  { intros B f n Hf. induction n as [|n IH]; [done|]. cbn. by rewrite Hf. }
  unfold ledger. cbn [spawn threads jobs]. rewrite startWorkers_replicate.
  rewrite !Hidle by done. done.
Qed.

Lemma target_of_updateRepo (q url : string) :
  target {| Args := ["git"; "pull"]; Dir := q |} = q ∧
  target {| Args := ["git"; "clone"; url; q]; Dir := "" |} = q.
Proof. done. Qed.

(** Closing the books after a move: the new trace and the new worker against
    the old ones. *)
Ltac close_books HA HB HC HD :=
  rewrite ?stats_snoc, ?refused_snoc, ?commands_snoc, ?fmap_app;
  cbn [unstarted pending lost fmap list_fmap target Args Dir] in *;
  rewrite ?app_nil_r in *;
  split; [rewrite <- HA; solve_Permutation|];
  split; [rewrite <- HB; solve_Permutation|];
  split; [rewrite ?length_app in *; cbn [length] in *; lia|];
  try done.

Lemma step_ledger v dir (repos : list Repo) (t0 evs : list Event) (p : Pool)
    (c : Choice) (b : Sys) :
  pool_inv v dir t0 p →
  trace (st p) = t0 ++ evs →
  ledger dir repos evs p →
  step_at v c p = Some b →
  sys_ledger dir repos t0 b.
Proof.
  intros (Hdir & evs' & Htr' & Hph & _ & _) Htr (HA & HB & HC & HD) Hstep.
  assert (evs' = evs) as -> by (eapply app_inv_head; by rewrite <- Htr', Htr).
  clear Htr'. destruct c as [i|].
  - destruct (threads p !! i) as [t|] eqn:Hi;
      [|by cbn [step_at] in Hstep; rewrite Hi in Hstep].
    destruct (bind_insert unstarted _ _ _ Hi) as (ru & Hou & Hnu).
    destruct (bind_insert pending _ _ _ Hi) as (rp & Hop & Hnp).
    destruct (bind_insert lost _ _ _ Hi) as (rl & Hol & Hnl).
    rewrite Hou in HA. rewrite Hop in HB. rewrite Hol in HC.
    pose proof (Forall_lookup_1 _ _ _ _ Hph Hi) as Hpi.
    destruct Hpi as [| |repo|q err Hin|cmd info|e info|info|].
    + cbn [step_at] in Hstep. rewrite Hi in Hstep.
      destruct (jobs p) as [|repo js] eqn:Hj; injection Hstep as <-;
        exists evs; (split; [done|]);
        unfold ledger; cbn [set_thread set_jobs set_st threads jobs st];
        rewrite Hnu, Hnp, Hnl, ?Hj.
      * cbn [unstarted pending lost] in *. by repeat split.
      * rewrite Hdir.
        change (unstarted (Busy (updateRepo v dir repo))) with [path_of dir repo].
        change (pending (Busy (updateRepo v dir repo))) with [path_of dir repo].
        change (lost (Busy (updateRepo v dir repo))) with (@nil ()).
        cbn [fmap list_fmap unstarted pending lost] in *.
        split; [rewrite <- HA; solve_Permutation|].
        split; [rewrite <- HB; solve_Permutation|]. done.
    + by cbn [step_at] in Hstep; rewrite Hi in Hstep.
    + erewrite step_at_perform in Hstep by (eauto using perform_updateRepo).
      injection Hstep as <-.
      change (unstarted (Busy (updateRepo v dir repo))) with [path_of dir repo] in HA.
      change (pending (Busy (updateRepo v dir repo))) with [path_of dir repo] in HB.
      change (lost (Busy (updateRepo v dir repo))) with (@nil ()) in HC.
      change (path_Join [dir; Name repo]) with (path_of dir repo).
      exists (evs ++ [EvStat (path_of dir repo)
                        (os_Stat (path_of dir repo) (world (st p)))]).
      split; [cbn; by rewrite Htr, app_assoc|].
      assert (HD' : Forall honest
                (evs ++ [EvStat (path_of dir repo)
                           (os_Stat (path_of dir repo) (world (st p)))])).
      { apply Forall_app. split; [done|]. constructor; [|done]. by eexists. }
      unfold ledger. cbn [set_thread set_jobs set_st threads jobs st].
      rewrite Hnu, Hnp, Hnl.
      destruct (os_Stat (path_of dir repo) (world (st p))) as [|e|e];
        close_books HA HB HC HD.
    + cbn [step_at] in Hstep. rewrite Hi in Hstep. injection Hstep as <-.
      exists evs. split; [done|]. cbn [lost pending unstarted] in *.
      change (stats evs ⊆+ path_of dir <$> repos ∧
              target <$> commands evs ⊆+ path_of dir <$> repos ∧
              Forall honest evs).
      split; [|split; [|done]].
      * etrans; [|exact (Permutation_submseteq _ _ HA)]. solve_submseteq.
      * etrans; [|exact (Permutation_submseteq _ _ HB)]. solve_submseteq.
    + destruct (cmd_Run cmd (world (st p))) as [res w] eqn:Hcmd.
      erewrite step_at_perform in Hstep by (eauto; cbn; by rewrite Hcmd).
      injection Hstep as <-.
      exists (evs ++ [EvRun cmd res]).
      split; [cbn; by rewrite Htr, app_assoc|].
      assert (HD' : Forall honest (evs ++ [EvRun cmd res])).
      { apply Forall_app. split; [done|]. by constructor. }
      unfold ledger. cbn [set_thread set_jobs set_st threads jobs st].
      rewrite Hnu, Hnp, Hnl.
      assert (Hafter : pending (Busy (afterRun v info res)) = [] ∧
                       unstarted (Busy (afterRun v info res)) = [] ∧
                       lost (Busy (afterRun v info res)) = []).
      { destruct res as [e|]; [done|]. apply (pending_verbose v info). }
      destruct Hafter as (-> & -> & ->).
      close_books HA HB HC HD.
    + erewrite step_at_perform in Hstep by (eauto; reflexivity).
      injection Hstep as <-.
      exists (evs ++ [EvOut (Stderr [VStr e])]).
      split; [cbn; by rewrite Htr, app_assoc|].
      assert (HD' : Forall honest (evs ++ [EvOut (Stderr [VStr e])])).
      { apply Forall_app. split; [done|]. by constructor. }
      unfold ledger. cbn [set_thread set_jobs set_st threads jobs st].
      rewrite Hnu, Hnp, Hnl.
      destruct (pending_verbose v info) as (-> & -> & ->).
      close_books HA HB HC HD.
    + destruct (pending_verbose v info) as (Hp0 & Hu0 & Hl0).
      rewrite Hu0 in HA. rewrite Hp0 in HB. rewrite Hl0 in HC.
      unfold verbose in Hi, Hstep. destruct v.
      * erewrite step_at_perform in Hstep by (eauto; reflexivity).
        injection Hstep as <-.
        exists (evs ++ [EvOut (Log info)]).
        split; [cbn; by rewrite Htr, app_assoc|].
        assert (HD' : Forall honest (evs ++ [EvOut (Log info)])).
        { apply Forall_app. split; [done|]. by constructor. }
        unfold ledger. cbn [set_thread set_jobs set_st threads jobs st].
        rewrite Hnu, Hnp, Hnl. close_books HA HB HC HD.
      * cbn [step_at] in Hstep. rewrite Hi in Hstep. injection Hstep as <-.
        exists evs. split; [done|].
        unfold ledger. cbn [set_thread set_jobs set_st threads jobs st].
        rewrite Hnu, Hnp, Hnl. close_books HA HB HC HD.
    + cbn [step_at] in Hstep. rewrite Hi in Hstep. injection Hstep as <-.
      exists evs. split; [done|].
      unfold ledger. cbn [set_thread set_jobs set_st threads jobs st].
      rewrite Hnu, Hnp, Hnl. close_books HA HB HC HD.
  - cbn [step_at] in Hstep. destruct (jobs p) eqn:Hj; [|done].
    destruct (forallb is_Gone (threads p)) eqn:Hall; [|done].
    injection Hstep as <-. exists evs. split; [done|].
    change (stats evs ≡ₚ path_of dir <$> repos ∧
            target <$> commands evs ≡ₚ path_of dir <$> repos ∧
            Forall honest evs).
    rewrite (all_Gone_nothing_left unstarted _ eq_refl Hall) in HA.
    rewrite (all_Gone_nothing_left pending _ eq_refl Hall) in HB.
    rewrite (all_Gone_nothing_left lost _ eq_refl Hall) in HC.
    destruct (refused evs); [|done].
    cbn [fmap list_fmap app] in *. rewrite !app_nil_r in *. done.
Qed.

Lemma reach_ledger v dir (repos : list Repo) (s0 : State) (a : Sys) :
  rtc (step v) (Running (spawn dir repos s0)) a →
  sys_ledger dir repos (trace s0) a.
Proof.
  revert a. apply rtc_ind_r.
  - exists []. split; [by rewrite app_nil_r|]. apply ledger_spawn.
  - intros a a' Hreach (p & c & -> & Hstep) (evs & Htr & Hled).
    pose proof (reach_inv v dir _ _ _ Hreach) as Hinv.
    by eapply step_ledger.
Qed.

(** X13.  When [main] returns, every repository of the list has had its path
    looked up exactly once and exactly one [git] command run on it, however
    the workers were scheduled and whatever [git] answered. *)
Theorem every_repository_exactly_once v dir (repos : list Repo)
    (s0 s : State) :
  rtc (step v) (Running (spawn dir repos s0)) (Stopped (Returned ()) s) →
  ∃ evs,
    trace s = trace s0 ++ evs ∧
    stats evs ≡ₚ path_of dir <$> repos ∧
    target <$> commands evs ≡ₚ path_of dir <$> repos.
Proof.
  intros Hreach.
  destruct (reach_ledger _ _ _ _ _ Hreach) as (evs & Htr & HA & HB & _).
  by exists evs.
Qed.

(** X14.  At no moment of a run, finished, crashed or under way, has a
    repository been looked up or had a command run on it more often than it
    occurs in the list. *)
Theorem no_repository_twice v dir (repos : list Repo) (s0 : State) (a : Sys) :
  rtc (step v) (Running (spawn dir repos s0)) a →
  ∃ evs,
    trace (final_state a) = trace s0 ++ evs ∧
    stats evs ⊆+ path_of dir <$> repos ∧
    target <$> commands evs ⊆+ path_of dir <$> repos.
Proof.
  intros Hreach.
  destruct (reach_ledger _ _ _ _ _ Hreach) as (evs & Htr & Hled).
  exists evs. split; [done|]. destruct a as [p|[[]|val|code|] s].
  - destruct Hled as (HA & HB & _). split.
    + etrans; [|exact (Permutation_submseteq _ _ HA)]. solve_submseteq.
    + etrans; [|exact (Permutation_submseteq _ _ HB)]. solve_submseteq.
  - destruct Hled as (HA & HB & _). split; by apply Permutation_submseteq.
  - by destruct Hled as (HA & HB & _).
  - by destruct Hled as (HA & HB & _).
  - by destruct Hled as (HA & HB & _).
Qed.

(** X15.  When [os.Stat] never answers with an error other than "does not
    exist", nothing can make the pool panic: every way it stops is [main]
    returning with exit status 0, and from every state it can get there. *)
Theorem pool_succeeds_without_refusals v dir (repos : list Repo)
    (s0 : State) (a : Sys) :
  (∀ q w err, os_Stat q w ≠ ErrOther err) →
  rtc (step v) (Running (spawn dir repos s0)) a →
  (∀ o s, a = Stopped o s → o = Returned () ∧ status a = Some 0) ∧
  ∃ s, rtc (step v) a (Stopped (Returned ()) s).
Proof.
  intros Hstat Hreach.
  assert (Hstop : ∀ b o s, rtc (step v) (Running (spawn dir repos s0)) b →
                           b = Stopped o s → o = Returned ()).
  { intros b o s Hb ->.
    pose proof (reach_inv _ _ _ _ _ Hb) as Hinv.
    destruct (reach_ledger _ _ _ _ _ Hb) as (evs & Htr & Hled).
    destruct o as [[]|val|code|]; try done.
    destruct Hinv as (evs' & q & err & Htr' & _ & Hin).
    assert (evs' = evs) as ->.
    { eapply app_inv_head. cbn [final_state] in Htr. by rewrite <- Htr', Htr. }
    destruct Hled as (_ & _ & Hhonest).
    rewrite Forall_forall in Hhonest. destruct (Hhonest _ Hin) as [w Hw].
    by destruct (Hstat q w err). }
  split.
  - intros o s ->. by rewrite (Hstop _ o s Hreach eq_refl).
  - destruct (rtc_nsteps_1 _ _ Hreach) as [n Hn].
    destruct (pool_always_stops _ _ _ _ _ _ Hn) as (_ & o & s & Hend).
    assert (Hall : rtc (step v) (Running (spawn dir repos s0)) (Stopped o s))
      by (by etrans).
    exists s. by rewrite <- (Hstop _ o s Hall eq_refl).
Qed.

Lemma step_at_shape v (p p' : Pool) (c : Choice) :
  step_at v c p = Some (Running p') →
  length (threads p') = length (threads p) ∧
  backupDir p' = backupDir p ∧
  (jobs p' = jobs p ∨ ∃ repo, jobs p = repo :: jobs p').
Proof.
  intros Hstep. destruct c as [i|]; cbn [step_at] in Hstep.
  - destruct (threads p !! i) as [[|q|]|]; try done.
    + destruct (jobs p) as [|repo js] eqn:Hj; injection Hstep as <-;
        cbn [set_thread set_jobs threads jobs backupDir];
        rewrite length_insert; eauto.
    + destruct q; try done;
        try (injection Hstep as <-; cbn; rewrite length_insert; by eauto);
        destruct (perform _ _) as [[q' s']|]; try done;
        injection Hstep as <-; cbn; rewrite length_insert; by eauto.
  - destruct (jobs p); [|done]. by destruct (forallb _ _).
Qed.

(** X16.  While the pool runs, the number of workers stays what it was at
    the start, the lesser of ten and the number of repositories, so never
    more than ten commands are under way; the backup directory stays the one
    given; and [main] hands the repositories over in the order of the list:
    what it still holds is the list without its first few. *)
Theorem pool_keeps_its_shape v dir (repos : list Repo) (s0 : State) (p : Pool) :
  rtc (step v) (Running (spawn dir repos s0)) (Running p) →
  length (threads p) = Nat.min 10 (length repos) ∧
  backupDir p = dir ∧
  ∃ k, jobs p = drop k repos.
Proof.
  intros Hreach.
  assert (Hshape : ∀ a, rtc (step v) (Running (spawn dir repos s0)) a →
            match a with
            | Running p =>
                length (threads p) = Nat.min 10 (length repos) ∧
                backupDir p = dir ∧ ∃ k, jobs p = drop k repos
            | Stopped _ _ => True
            end).
  { apply rtc_ind_r.
    - split; [|split; [done|by exists 0%nat]].
      cbn [spawn threads].
      rewrite startWorkers_replicate, length_replicate, workerCount_min.
      unfold maxWorkers. lia.
    - intros a [p'|o s] _ (q & c & -> & Hstep) IH; [|done].
      destruct IH as (Hlen & Hdir & k & Hjobs).
      destruct (step_at_shape _ _ _ _ Hstep) as (Hlen' & Hdir' & Hjobs').
      split; [by rewrite Hlen'|]. split; [by rewrite Hdir'|].
      destruct Hjobs' as [->|[repo Hrepo]]; [by exists k|].
      exists (S k). rewrite Hjobs in Hrepo.
      replace (S k) with (k + 1)%nat by lia.
      by rewrite <- drop_drop, Hrepo. }
  exact (Hshape _ Hreach).
Qed.

End Ledger.


(** ** The length of a run, and the front end *)
Section Misc.
Context `{Env}.

(** X17.  No run of the pool goes on for ever: it makes at most one move
    more than eight per repository. *)
Theorem pool_run_is_bounded (v : bool) (dir : string) (repos : list Repo)
    (s0 : State) (a : Sys) (n : nat) :
  nsteps (step v) n (Running (spawn dir repos s0)) a →
  (n ≤ 1 + 8 * length repos)%nat.
Proof. intros Hn. by destruct (pool_always_stops _ _ _ _ _ _ Hn). Qed.

(** X18.  The front end exits with status 0 exactly when it is given two
    arguments and [Run], called with the first as account, the second as
    directory and the secret of the flag, returns no error; otherwise the
    status is 1. *)
Theorem frontend_status (Run : Frontend.Config → list Frontend.Update * option error)
    (secret : string) (verboseFlag : bool) (args : list string) :
  let code := (Frontend.main Run secret verboseFlag args).2 in
  (code = 0 ∨ code = 1) ∧
  (code = 0 ↔
   ∃ a0 a1, args = [a0; a1] ∧
            (Run {| Frontend.Account := a0; Frontend.Dir := a1;
                    Frontend.Secret := secret |}).2 = None).
Proof.
  unfold Frontend.main.
  destruct args as [|a0 [|a1 [|a2 args]]]; cbn zeta;
    try (split; [by right|]; split; [done|]; by intros (? & ? & ? & _)).
  destruct (Run _) as [updates [e|]] eqn:HRun; cbn [snd].
  - split; [by right|]. split; [done|].
    intros (b0 & b1 & [= <- <-] & Hnone). by rewrite HRun in Hnone.
  - split; [by left|]. split; [|done]. intros _. exists a0, a1.
    by rewrite HRun.
Qed.

(** X19.  The logging loop of the front end writes every error update it
    receives, in order, with or without the verbose flag; without the flag
    it writes nothing else, with it it writes one line per update. *)
Theorem frontend_logs_every_error (updates : list Frontend.Update) :
  let errors :=
    omap (λ w, match w with Frontend.ErrLog m => Some m | _ => None end) in
  let sent :=
    omap (λ u, match Frontend.Type_ u with
               | Frontend.UErr => Some (Frontend.Message u)
               | Frontend.UInfo => None
               end) updates in
  errors (updates ≫= Frontend.consume true) = sent ∧
  updates ≫= Frontend.consume false = Frontend.ErrLog <$> sent ∧
  length (updates ≫= Frontend.consume true) = length updates.
Proof.
  induction updates as [|u updates (IH1 & IH2 & IH3)]; [done|].
  cbn zeta in *. rewrite !bind_cons, omap_app, length_app, IH1, IH2, IH3.
  cbn [omap list_omap]. unfold Frontend.consume.
  by destruct (Frontend.Type_ u).
Qed.

End Misc.


(** * The further properties at work *)
Section MoreRuns.
Local Existing Instance Sim.env.

Lemma main_wrong_argument_count_witness :
  status (main true 3 ["octo"] Sim.round_robin (Sim.start Sim.octo)) = Some 1.
Proof.
  refine (proj2 (main_wrong_argument_count true 3 ["octo"] Sim.round_robin
                   (Sim.start Sim.octo) _)).
  cbn. lia.
Defined.

Lemma getCategory_failure_is_fatal_witness :
  status (main true 3 ["ghost"; "/backup"] Sim.round_robin
            (Sim.start Cases.ghost)) = Some 2 ∧
  status (main true 3 ["nobody"; "/backup"] Sim.round_robin
            (Sim.start Cases.ghost)) = Some 2.
Proof.
  split.
  - destruct (getCategory_failure_is_fatal true 3 "ghost" "/backup"
                Sim.round_robin (Sim.start Cases.ghost)
                (Cases.answer 404 [] (Sim.account "")) Cases.ghost)
      as (val & _ & _ & Hstatus).
    + vm_compute; reflexivity.
    + vm_compute; discriminate.
    + exact Hstatus.
  - destruct (getCategory_failure_is_fatal true 3 "nobody" "/backup"
                Sim.round_robin (Sim.start Cases.ghost)
                (Err "no such host") Cases.ghost)
      as (val & _ & _ & Hstatus).
    + vm_compute; reflexivity.
    + exact I.
    + exact Hstatus.
Defined.

Lemma getCategory_returns_a_category_witness :
  (run (getCategory "octo") (Sim.start Sim.octo)).1 = Returned "users" ∧
  ("users" = "users" ∨ "users" = "orgs").
Proof.
  assert (Hrun : (run (getCategory "octo") (Sim.start Sim.octo)).1 =
                 Returned "users") by (vm_compute; reflexivity).
  split; [exact Hrun|].
  exact (proj2 (getCategory_returns_a_category "octo" (Sim.start Sim.octo))
           "users" Hrun).
Defined.

Lemma setMaxPageSize_failure_is_fatal_witness :
  status (main true 3 ["oc to"; "/backup"] Sim.round_robin
            (Sim.start Cases.spaced)) = Some 2.
Proof.
  refine (proj2 (proj2 (setMaxPageSize_failure_is_fatal true 3 "oc to" "/backup"
            "users" Sim.round_robin (Sim.start Cases.spaced)
            (record (Sim.start Cases.spaced) Cases.spaced
               (EvGet (users_url "oc to")))
            "invalid character in URL" _ _))).
  - vm_compute; reflexivity.
  - vm_compute; reflexivity.
Defined.

Lemma discover_hands_over_witness :
  ∃ s3, boot true 3 ["octo"; "/backup"] (Sim.start Sim.octo) =
        Running (spawn "/backup" Cases.octo_repos s3).
Proof.
  eexists.
  eapply (discover_hands_over true 3 "octo" "/backup" "users"
            (Sim.start Sim.octo)
            (record (Sim.start Sim.octo) Sim.octo (EvGet (users_url "octo")))
            _
            {| Scheme := ""; Host := "";
               Path := "https://api.github.com/users/octo/repos";
               RawQuery := ""; Fragment := "" |}
            Cases.octo_repos).
  - vm_compute; reflexivity.
  - vm_compute; reflexivity.
  - vm_compute; reflexivity.
Defined.

Lemma octo_first_walk :
  ∃ r1,
    walk Sim.page1 (Sim.start Cases.broken_chain) [r1] Sim.page2
      (record (Sim.start Cases.broken_chain) Cases.broken_chain
         (EvGet Sim.page1)).
Proof.
  eexists. eapply walk_on;
    [vm_compute; reflexivity|vm_compute; reflexivity|vm_compute; reflexivity|].
  apply walk_here.
Qed.

Lemma getRepos_failure_on_a_later_page_witness :
  (run (getRepos 2 Sim.page1) (Sim.start Cases.broken_chain)).1 =
  Panicked (bad_status Sim.page2 500).
Proof.
  destruct octo_first_walk as [r1 Hwalk].
  pose proof (@getRepos_failure_on_a_later_page Sim.env _ _ _ _ _
                (Cases.answer 500 [] (Sim.listing [])) Cases.broken_chain 0
                Hwalk) as Hrun.
  cbn [length Nat.add] in Hrun. rewrite Hrun.
  - reflexivity.
  - vm_compute; reflexivity.
  - vm_compute; discriminate.
Defined.


Lemma getRepos_short_address_panics_witness :
  run (getRepos 1 Sim.page1) (Sim.start Cases.bare) =
  (Panicked slice_out_of_range,
   record (Sim.start Cases.bare) Cases.bare (EvGet Sim.page1)).
Proof.
  eapply (getRepos_short_address_panics 0 Sim.page1 (Sim.start Cases.bare)
            _ Cases.bare "" (" " +:+ rel_next) "" []).
  - vm_compute; reflexivity.
  - vm_compute; reflexivity.
  - vm_compute; reflexivity.
  - by left.
  - vm_compute; reflexivity.
  - vm_compute; reflexivity.
  - cbn. lia.
  - vm_compute; reflexivity.
Defined.

Lemma getRepos_self_link_never_returns_witness :
  (run (getRepos 5 Sim.page1) (Sim.start Cases.looping)).1 = Diverged.
Proof.
  eapply (@getRepos_self_link_never_returns Sim.env
            (λ w : Sim.toy, w = Cases.looping) Sim.page1).
  - intros w ->. exists Cases.looping. split; [|reflexivity].
    vm_compute; reflexivity.
  - vm_compute; reflexivity.
  - vm_compute; reflexivity.
  - reflexivity.
Defined.

Lemma cloned_repository_is_updated_next_witness :
  ∃ evs,
    trace (run (updateRepo true "/backup" (Sim.repo "alpha"))
             (run (updateRepo true "/backup" (Sim.repo "alpha"))
                (Sim.start Sim.octo)).2).2 = [] ++ evs ∧
    commands evs =
      [{| Args := ["git"; "clone"; GitUrl (Sim.repo "alpha"); "/backup/alpha"];
          Dir := "" |};
       {| Args := ["git"; "pull"]; Dir := "/backup/alpha" |}].
Proof.
  refine (proj2 (proj2 (cloned_repository_is_updated_next true "/backup"
            (Sim.repo "alpha") (Sim.start Sim.octo)
            "no such file or directory"
            (Sim.create "/backup/alpha" Sim.octo) _ _ _))).
  - vm_compute; reflexivity.
  - vm_compute; reflexivity.
  - vm_compute; reflexivity.
Defined.

Lemma updateRepo_logs_after_success_witness :
  logged (trace (run (updateRepo true "/backup" (Sim.repo "beta"))
                     (Sim.start Sim.octo)).2) =
    [[VStr "Updated repository:"; VStr "beta"]] ∧
  logged (trace (run (updateRepo true "/backup" (Sim.repo "alpha"))
                     (Sim.start Sim.octo)).2) =
    [[VStr "Cloned  repository:"; VStr "alpha"]].
Proof.
  split.
  - rewrite (proj1 (updateRepo_logs_after_success "/backup" (Sim.repo "beta")
               (Sim.start Sim.octo) Sim.octo));
      vm_compute; reflexivity.
  - rewrite (proj2 (updateRepo_logs_after_success "/backup" (Sim.repo "alpha")
               (Sim.start Sim.octo) (Sim.create "/backup/alpha" Sim.octo))
               "no such file or directory"); vm_compute; reflexivity.
Defined.

Lemma nextPage_follows_first_entry_witness :
  nextPage {| StatusCode := 200;
              Header := {["Link" := [link_next Sim.page2 +:+ ", " +:+
                                     link_entry "last" Sim.page2]]};
              RequestURL := ""; Body := Sim.listing [] |} =
  Ret (Some Sim.page2).
Proof.
  eapply (nextPage_follows_first_entry _ Sim.page2
            (", " +:+ link_entry "last" Sim.page2) []).
  - vm_compute; reflexivity.
  - vm_compute; reflexivity.
  - right. eexists. reflexivity.
  - apply lookup_singleton_eq.
Defined.

Lemma nextPage_ignores_later_entries_witness :
  nextPage {| StatusCode := 200;
              Header := {["Link" := [link_entry "last" Sim.page2 +:+ ", " +:+
                                     link_next Sim.page2]]};
              RequestURL := ""; Body := Sim.listing [] |} =
  Ret None.
Proof.
  eapply (nextPage_ignores_later_entries _ (link_entry "last" Sim.page2)
            (" " +:+ link_next Sim.page2) []).
  - vm_compute; reflexivity.
  - vm_compute; reflexivity.
  - apply lookup_singleton_eq.
Defined.

Lemma octo_reaches_the_end :
  rtc (step true)
    (Running (spawn "/backup" Cases.octo_repos Sim.octo_start))
    (Stopped (Returned ()) Sim.octo_final).
Proof.
  rewrite <- (proj1 octo_run_stops). unfold Sim.octo_run, main.
  rewrite (proj2 octo_run_stops). apply exec_rtc.
Qed.

Lemma every_repository_exactly_once_witness :
  ∃ evs,
    trace Sim.octo_final = trace Sim.octo_start ++ evs ∧
    stats evs ≡ₚ path_of "/backup" <$> Cases.octo_repos ∧
    target <$> commands evs ≡ₚ path_of "/backup" <$> Cases.octo_repos.
Proof.
  exact (every_repository_exactly_once true "/backup" Cases.octo_repos
           Sim.octo_start Sim.octo_final octo_reaches_the_end).
Defined.

Lemma no_repository_twice_witness :
  ∃ evs,
    trace Sim.octo_final = trace Sim.octo_start ++ evs ∧
    stats evs ⊆+ path_of "/backup" <$> Cases.octo_repos ∧
    target <$> commands evs ⊆+ path_of "/backup" <$> Cases.octo_repos.
Proof.
  exact (no_repository_twice true "/backup" Cases.octo_repos
           Sim.octo_start _ octo_reaches_the_end).
Defined.

(** After the first worker has taken [alpha]. *)
Lemma pool_keeps_its_shape_witness :
  let p0 := spawn "/backup" Cases.octo_repos Sim.octo_start in
  let p1 := set_thread (set_jobs p0 [Sim.repo "beta"; Sim.repo "gamma"]) 0
              (Busy (updateRepo true "/backup" (Sim.repo "alpha"))) in
  length (threads p1) = Nat.min 10 (length Cases.octo_repos) ∧
  backupDir p1 = "/backup" ∧
  ∃ k, jobs p1 = drop k Cases.octo_repos.
Proof.
  intros p0 p1.
  apply (pool_keeps_its_shape true "/backup" Cases.octo_repos Sim.octo_start).
  apply rtc_once. exists p0, (Worker 0). split; reflexivity.
Defined.

Lemma pool_run_is_bounded_witness :
  ∃ n,
    nsteps (step true) n
      (Running (spawn "/backup" Cases.octo_repos Sim.octo_start))
      (Stopped (Returned ()) Sim.octo_final) ∧
    (n ≤ 1 + 8 * 3)%nat.
Proof.
  destruct (rtc_nsteps_1 _ _ octo_reaches_the_end) as [n Hn].
  exists n. split; [exact Hn|].
  exact (pool_run_is_bounded true "/backup" Cases.octo_repos _ _ n Hn).
Defined.

Lemma pool_succeeds_without_refusals_witness :
  ∃ s,
    rtc (@step Cases.calm true)
      (Running (@spawn Cases.calm "/backup" Cases.octo_repos
                  (@Build_State Cases.calm Sim.octo [])))
      (Stopped (Returned ()) s).
Proof.
  refine (proj2 (@pool_succeeds_without_refusals Cases.calm true "/backup"
                   Cases.octo_repos (@Build_State Cases.calm Sim.octo []) _
                   _ (rtc_refl _ _))).
  intros q w err. cbn. unfold Cases.calm_stat.
  destruct (Sim.mem q (Sim.present w)); discriminate.
Defined.

End MoreRuns.
